(** * Trello analytics: the snapshot model and the metric engine

    A shallow embedding of [src/data_processor.py], [src/config.py] and of
    the control flow of [src/app.py] and [src/trello_api.py], with the
    properties of the specification stated over it.

    Conventions of the embedding.
    - A Python [str] is the list of its code points ([pystr]).  Column names
      and endpoints, which are ASCII literals of the source, are [string]s.
    - Every date the Trello API returns is a fixed-width UTC ISO-8601 string
      ("2024-01-05T12:00:00.000Z").  On such strings the lexicographic order
      used by [sorted(..., key=lambda x: x['date'])] is the chronological
      order, and [datetime.fromisoformat(s.replace('Z', '+00:00'))] is an
      aware datetime at offset 0.  The embedding keeps the instant such a
      string denotes, as a number of microseconds since the epoch ([Z]).
    - Durations in days and their mean are idealised by exact rationals
      ([Q]); the completion rate of the ranking, which is rounded to one
      decimal, is computed with the roundings of float64 ([b64]).
    - Code that can raise returns a [result]. *)

From Stdlib Require Import ZArith QArith Qround Lia.
From stdpp Require Import gmap strings list sorting.

Open Scope Z_scope.

(** ** Python strings *)

Abbreviation pystr := (list N).

Definition of_ascii (s : string) : pystr :=
  map Ascii.N_of_ascii (String.list_ascii_of_string s).

(** [str.isspace] on one code point: the characters [str.strip()] removes. *)
Definition isspace (c : N) : bool :=
  ((9 <=? c) && (c <=? 13) || (28 <=? c) && (c <=? 32)
   || (c =? 133) || (c =? 160) || (c =? 5760)
   || (8192 <=? c) && (c <=? 8202)
   || (c =? 8232) || (c =? 8233) || (c =? 8239) || (c =? 8287)
   || (c =? 12288))%N.

Fixpoint lstrip (s : pystr) : pystr :=
  match s with
  | c :: s' => if isspace c then lstrip s' else s
  | [] => []
  end.

(** [str.strip()] *)
Definition strip (s : pystr) : pystr := rev (lstrip (rev (lstrip s))).

(** [str.lower()] on one code point, for ASCII and the Latin-1 supplement
    (the alphabet of the list names of the source); other code points are
    left as they are. *)
Definition lower_char (c : N) : N :=
  (if (65 <=? c) && (c <=? 90) then c + 32
   else if (192 <=? c) && (c <=? 222) && negb (c =? 215) then c + 32
   else c)%N.

Definition lower (s : pystr) : pystr := map lower_char s.

(** The literals of the source. *)
Definition concluido : pystr := of_ascii "conclu" ++ [237%N] ++ of_ascii "do".
Definition fazendo : pystr := of_ascii "fazendo".
Definition Desconhecida : pystr := of_ascii "Desconhecida".
Definition Desconhecido : pystr := of_ascii "Desconhecido".
Definition Sem_atribuicao : pystr :=
  of_ascii "Sem atribui" ++ [231%N; 227%N] ++ of_ascii "o".
Definition Sem_label : pystr := of_ascii "Sem label".
Definition createCard : pystr := of_ascii "createCard".
Definition updateCard : pystr := of_ascii "updateCard".

Definition str_eqb (a b : pystr) : bool := bool_decide (a = b).

(** [name.strip().lower() == 'concluído'] *)
Definition is_done_list (name : pystr) : bool :=
  str_eqb (lower (strip name)) concluido.

(** ** The raw snapshot *)

(** One entry of a card's action history: [action['type']],
    [action['date']] and, when [action['data']] has a ['listAfter'], the
    ['name'] under it. *)
Record action := {
  a_type : pystr;
  a_date : Z;
  a_listAfter : option pystr
}.

(** A card of the board.  A key that is missing, [None] or empty in the
    JSON is [None] (resp. the empty list, [false]) here, as [card.get]
    makes it. *)
Record card := {
  card_id : pystr;
  card_name : pystr;
  closed : bool;
  idList : option pystr;
  actions : list action;
  dateLastActivity : option Z;
  due : option Z;
  dueComplete : bool;
  idMembers : list pystr;
  card_labels : list pystr
}.

(** [trello_data]: lists and members as (id, name) pairs. *)
Record trello_data := {
  td_lists : list (pystr * pystr);
  td_members : list (pystr * pystr);
  td_cards : list card
}.

(** A dict comprehension [{x['id']: x['name'] for x in xs}]: a later
    entry with the same id replaces an earlier one. *)
Definition dict_of (xs : list (pystr * pystr)) : gmap pystr pystr :=
  list_to_map (rev xs).

(** ** Sorting *)

(** A stable sort by a boolean order [leb]: an element is put before the
    first element of the sorted rest that it is below or equal to, so that
    equal keys keep the order of the input, as [sorted] and a stable
    [sort_values] keep it. *)
Section Sort.
Context {A : Type} (leb : A → A → bool).

Fixpoint insert_by (x : A) (l : list A) : list A :=
    match l with
    | [] => [x]
    | y :: l' => if leb x y then x :: l else y :: insert_by x l'
    end.

Definition sort_by (l : list A) : list A := foldr insert_by [] l.
End Sort.

(** The order a sort by [key] establishes. *)
Definition key_le {A} (key : A → Z) (x y : A) : Prop := key x ≤ key y.

(** [sorted(l, key=key)] *)
Definition sorted {A} (key : A → Z) : list A → list A :=
  sort_by (λ x y, key x <=? key y).

(** [sort_values(col, ascending=False)].  pandas sorts with quicksort by
    default, which leaves the order of equal keys open; the stable order is
    taken here and no property below depends on it. *)
Definition sorted_desc {A} (key : A → Z) : list A → list A :=
  sort_by (λ x y, key y <=? key x).

(** ** The derived card *)

Definition DAY : Z := 86400000000.

(** One row of [cards_data]. *)
Record row := {
  row_id : pystr;
  row_name : pystr;
  row_list : pystr;
  created_date : option Z;
  completed_date : option Z;
  due_date : option Z;
  is_overdue : bool;
  is_closed : bool;
  members : list pystr;
  member_count : nat;
  labels : list pystr;
  label_count : nat;
  completion_time_days : option Q
}.

Definition is_createCard (a : action) : bool := str_eqb (a_type a) createCard.

(** [action['type'] == 'updateCard' and 'listAfter' in action.get('data', {})]
    and the destination name, stripped and lowered, is ['concluído']. *)
Definition is_move_to_done (a : action) : bool :=
  str_eqb (a_type a) updateCard &&
  match a_listAfter a with
  | Some n => str_eqb (lower (strip n)) concluido
  | None => false
  end.

Definition sorted_actions (c : card) : list action := sorted a_date (actions c).

(** The first loop of the card: the first ['createCard'] of the sorted
    actions, else [dateLastActivity]. *)
Definition card_created_date (c : card) : option Z :=
  match a_date <$> List.find is_createCard (sorted_actions c) with
  | Some t => Some t
  | None => dateLastActivity c
  end.

(** The second loop, run only for a card that is in the done list. *)
Definition card_completed_date (list_name : pystr) (c : card) : option Z :=
  if is_done_list list_name then
    match a_date <$> List.find is_move_to_done (rev (sorted_actions c)) with
    | Some t => Some t
    | None => dateLastActivity c
    end
  else None.

Section Derive.
  (** [datetime.now(...)], the dicts of [__init__] *)
Variable now : Z.
Variable lists_dict members_dict : gmap pystr pystr.

Definition list_name_of (c : card) : pystr :=
    match idList c with
    | Some i => default Desconhecida (lists_dict !! i)
    | None => Desconhecida
    end.

  (** The body of the loop of [_create_cards_dataframe]: [None] is the
      [continue] of an archived card. *)
Definition derive_card (c : card) : option row :=
    if closed c then None
    else
      let list_name := list_name_of c in
      let created := card_created_date c in
      let completed := card_completed_date list_name c in
      let member_names :=
        map (λ mid, default Desconhecido (members_dict !! mid)) (idMembers c) in
      let label_names := filter (λ n, n ≠ []) (card_labels c) in
      Some {|
        row_id := card_id c;
        row_name := card_name c;
        row_list := list_name;
        created_date := created;
        completed_date := completed;
        due_date := due c;
        is_overdue :=
          match due c with
          | Some d => negb (dueComplete c) && (d <? now)
          | None => false
          end;
        is_closed := closed c;
        members := member_names;
        member_count := length member_names;
        labels := label_names;
        label_count := length label_names;
        completion_time_days :=
          match created, completed with
          | Some cr, Some co => Some (Qmake (co - cr) (Z.to_pos DAY))
          | _, _ => None
          end
      |}.

Definition cards_data (cards : list card) : list row :=
    omap derive_card cards.
End Derive.

(** ** Exceptions *)

Inductive exn :=
  | KeyError (key : string)
  | TypeError (msg : string).

Inductive result (A : Type) :=
  | Ok (a : A)
  | Raise (e : exn).
Arguments Ok {A} a.
Arguments Raise {A} e.

#[global] Instance result_ret : MRet result := λ A a, Ok a.
#[global] Instance result_bind : MBind result := λ A B f m,
  match m with
  | Ok a => f a
  | Raise e => Raise e
  end.

Definition raises {A} (m : result A) : Prop := ∃ e, m = Raise e.

(** ** Datetimes given as range bounds *)

(** A [datetime] passed to the metric engine: its wall-clock fields as
    microseconds since 1970-01-01T00:00:00, and whether it carries a
    [tzinfo].  The stored timestamps are all at UTC, and an aware bound is
    taken at UTC as well. *)
Record datetime := {
  wall : Z;
  aware : bool
}.

(** [pytz.UTC.localize(d)]: the same wall-clock fields, at UTC. *)
Definition utc_localize (d : datetime) : datetime :=
  {| wall := wall d; aware := true |}.

(** [if d.tzinfo is None: d = pytz.UTC.localize(d)] *)
Definition to_utc (d : datetime) : datetime :=
  if aware d then d else utc_localize d.

Definition tz_mismatch : exn :=
  TypeError "Cannot compare tz-naive and tz-aware datetime-like objects".

(** [series >= d] and [series <= d] for a column of UTC timestamps: a
    missing value compares [False]; a naive [d] against stored (aware)
    timestamps raises. *)
Definition series_cmp (cmp : Z → Z → bool) (col : list (option Z))
    (d : datetime) : result (list bool) :=
  if negb (aware d) && existsb (λ x, bool_decide (is_Some x)) col
  then Raise tz_mismatch
  else Ok (map (λ x, match x with Some t => cmp t (wall d) | None => false end) col).

Definition series_ge := series_cmp Z.geb.
Definition series_le := series_cmp Z.leb.

(** ** The frame of derived cards *)

Record DataFrame := {
  columns : list string;
  rows : list row
}.

Definition card_columns : list string :=
  ["id"; "name"; "list"; "created_date"; "completed_date"; "due_date";
   "is_overdue"; "is_closed"; "members"; "member_count"; "labels";
   "label_count"; "completion_time_days"]%string.

(** [pd.DataFrame(cards_data)]: the columns are the keys of the dicts, so
    an empty list gives a frame with no column at all. *)
Definition pd_DataFrame (data : list row) : DataFrame :=
  {| columns := match data with [] => [] | _ :: _ => card_columns end;
     rows := data |}.

(** [df[c]]: the column [c], or [KeyError] when the frame has none. *)
Definition getitem {A} (df : DataFrame) (c : string) (proj : row → A)
    : result (list A) :=
  if bool_decide (c ∈ columns df) then Ok (map proj (rows df))
  else Raise (KeyError c).

(** [df[mask]] *)
Definition select (df : DataFrame) (mask : list bool) : DataFrame :=
  {| columns := columns df;
     rows := fst <$> filter (λ p, snd p = true) (zip (rows df) mask) |}.

(** [DataProcessor.__init__] followed by [_create_cards_dataframe]. *)
Definition create_cards_dataframe (now : Z) (data : trello_data) : DataFrame :=
  pd_DataFrame
    (cards_data now (dict_of (td_lists data)) (dict_of (td_members data))
       (td_cards data)).

(** ** The metric engine *)

Definition mask_range (df : DataFrame) (c : string) (proj : row → option Z)
    (start_date end_date : datetime) : result (list bool) :=
  lo ← (col ← getitem df c proj; series_ge col start_date);
  hi ← (col ← getitem df c proj; series_le col end_date);
  mret (zip_with andb lo hi).

Definition filter_by_date_range (df_cards : DataFrame)
    (start_date end_date : datetime) : result DataFrame :=
  let start_date := to_utc start_date in
  let end_date := to_utc end_date in
  mask ← mask_range df_cards "created_date" created_date start_date end_date;
  mret (select df_cards mask).

Definition get_cards_created_count (df_cards : DataFrame)
    (start_date end_date : datetime) : result nat :=
  df_filtered ← filter_by_date_range df_cards start_date end_date;
  mret (length (rows df_filtered)).

Definition get_cards_completed_count (df_cards : DataFrame)
    (start_date end_date : datetime) : result nat :=
  let start_date := to_utc start_date in
  let end_date := to_utc end_date in
  mask ← mask_range df_cards "completed_date" completed_date start_date end_date;
  mret (length (rows (select df_cards mask))).

Definition get_cards_in_progress_count (df_cards : DataFrame) : result nat :=
  col ← getitem df_cards "list" row_list;
  mret (length (rows (select df_cards
                        (map (λ n, str_eqb (lower (strip n)) fazendo) col)))).

(** Ascending order of [due_date], missing values last. *)
Definition due_leb (x y : row) : bool :=
  match due_date x, due_date y with
  | Some a, Some b => a <=? b
  | Some _, None => true
  | None, Some _ => false
  | None, None => true
  end.

Definition get_overdue_cards (df_cards : DataFrame) : result DataFrame :=
  mask ← getitem df_cards "is_overdue" is_overdue;
  let df := select df_cards mask in
  _ ← getitem df "due_date" due_date;
  mret {| columns := columns df; rows := sort_by due_leb (rows df) |}.

(** *** Per member *)

(** One row of the frame of [get_cards_by_member]. *)
Record member_row := {
  member : pystr;
  created : Z;
  completed : Z
}.

(** [1 if pd.notna(row['completed_date']) else 0] *)
Definition completed_flag (r : row) : Z :=
  if bool_decide (is_Some (completed_date r)) then 1 else 0.

(** The rows one card contributes to [member_cards]. *)
Definition explode_members (r : row) : list member_row :=
  match members r with
  | [] => [ {| member := Sem_atribuicao; created := 1;
               completed := completed_flag r |} ]
  | ms => map (λ m, {| member := m; created := 1;
                       completed := completed_flag r |}) ms
  end.

(** Code-point order of two strings, the order of the group keys. *)
Fixpoint str_leb (a b : pystr) : bool :=
  match a, b with
  | [], _ => true
  | _ :: _, [] => false
  | x :: a', y :: b' => (x <? y)%N || (x =? y)%N && str_leb a' b'
  end.

Definition group_add (m : gmap pystr (Z * Z)) (r : member_row)
    : gmap pystr (Z * Z) :=
  let acc := default (0, 0) (m !! member r) in
  <[member r := (fst acc + created r, snd acc + completed r)]> m.

(** [df.groupby('member').sum().reset_index()]: one row per member with
    the sums of the two columns, in the order of the keys. *)
Definition groupby_sum (l : list member_row) : list member_row :=
  sort_by (λ x y, str_leb (member x) (member y))
    ((λ kv, {| member := fst kv; created := fst (snd kv);
               completed := snd (snd kv) |})
       <$> map_to_list (foldl group_add ∅ l)).

Definition get_cards_by_member (df_cards : DataFrame)
    (start_date end_date : datetime) : result (list member_row) :=
  df_filtered ← filter_by_date_range df_cards start_date end_date;
  let member_cards := flat_map explode_members (rows df_filtered) in
  match member_cards with
  | [] => mret []
  | _ :: _ => mret (sorted_desc created (groupby_sum member_cards))
  end.

(** *** Per label *)

(** [Counter(label_cards)]: the counts, in the order of first occurrence. *)
Fixpoint counter_add (x : pystr) (c : list (pystr * Z)) : list (pystr * Z) :=
  match c with
  | [] => [(x, 1)]
  | (y, n) :: c' =>
      if str_eqb x y then (y, n + 1) :: c' else (y, n) :: counter_add x c'
  end.

Definition Counter (l : list pystr) : list (pystr * Z) :=
  foldl (λ c x, counter_add x c) [] l.

Definition explode_labels (r : row) : list pystr :=
  match labels r with
  | [] => [Sem_label]
  | ls => ls
  end.

Definition get_cards_by_label (df_cards : DataFrame)
    (start_date end_date : datetime) : result (list (pystr * Z)) :=
  df_filtered ← filter_by_date_range df_cards start_date end_date;
  let label_cards := flat_map explode_labels (rows df_filtered) in
  match label_cards with
  | [] => mret []
  | _ :: _ => mret (sorted_desc snd (Counter label_cards))
  end.

(** *** Average completion time *)

(** A pandas float: a number, an infinity, or NaN. *)
Inductive pyfloat :=
  | Fin (q : Q)
  | Inf
  | NaN.

Definition Qsum (l : list Q) : Q := foldr Qplus 0%Q l.

(** [Series.mean()]: missing values are skipped; NaN when none is left. *)
Definition series_mean (col : list (option Q)) : pyfloat :=
  match omap id col with
  | [] => NaN
  | vs => Fin (Qsum vs / inject_Z (Z.of_nat (length vs)))
  end.

Definition get_average_completion_time (df_cards : DataFrame)
    (start_date end_date : datetime) : result pyfloat :=
  let start_date := to_utc start_date in
  let end_date := to_utc end_date in
  mask ← mask_range df_cards "completed_date" completed_date start_date end_date;
  let df_completed := select df_cards mask in
  match rows df_completed with
  | [] => mret (Fin 0)
  | _ :: _ =>
      col ← getitem df_completed "completion_time_days" completion_time_days;
      mret (series_mean col)
  end.

(** *** Timeline *)

Record timeline_row := {
  t_date : Z;
  t_created : Z;
  t_completed : Z
}.

(** [pd.date_range(start=start, end=end, freq='D')] at UTC: [start],
    [start] + 1 day, ... while not after [end]. *)
Definition date_range (start_date end_date : Z) : list Z :=
  if end_date <? start_date then []
  else map (λ k, start_date + Z.of_nat k * DAY)
           (seq 0 (S (Z.to_nat ((end_date - start_date) / DAY)))).

(** [.date()] of a UTC timestamp: its calendar day, counted from the epoch. *)
Definition date_of (t : Z) : Z := t / DAY.

(** [groupby('date').size()] *)
Definition groupby_size (days : list Z) : gmap Z Z :=
  foldr (λ d m, <[d := default 0 (m !! d) + 1]> m) ∅ days.

(** [df[df[c].notna()]], then the counts per day; the source builds an
    empty series when no row is left, which [groupby_size []] is. *)
Definition day_counts (col : list (option Z)) : gmap Z Z :=
  groupby_size (date_of <$> omap id col).

(** [timeline.loc[timeline['date'] == date, 'created'] = v] *)
Definition loc_set_created (date v : Z) (tl : list timeline_row)
    : list timeline_row :=
  map (λ r, if bool_decide (t_date r = date)
            then {| t_date := t_date r; t_created := v;
                    t_completed := t_completed r |}
            else r) tl.

Definition loc_set_completed (date v : Z) (tl : list timeline_row)
    : list timeline_row :=
  map (λ r, if bool_decide (t_date r = date)
            then {| t_date := t_date r; t_created := t_created r;
                    t_completed := v |}
            else r) tl.

(** One turn of the loop [for date in timeline['date']]. *)
Definition fill_step (created_counts completed_counts : gmap Z Z)
    (tl : list timeline_row) (date : Z) : list timeline_row :=
  let tl :=
    match created_counts !! date_of date with
    | Some v => loc_set_created date v tl
    | None => tl
    end in
  match completed_counts !! date_of date with
  | Some v => loc_set_completed date v tl
  | None => tl
  end.

Definition get_cards_timeline (df_cards : DataFrame)
    (start_date end_date : datetime) : result (list timeline_row) :=
  let start_date := to_utc start_date in
  let end_date := to_utc end_date in
  let timeline :=
    map (λ d, {| t_date := d; t_created := 0; t_completed := 0 |})
        (date_range (wall start_date) (wall end_date)) in
  col_created ← getitem df_cards "created_date" created_date;
  let created_counts := day_counts col_created in
  col_completed ← getitem df_cards "completed_date" completed_date;
  let completed_counts := day_counts col_completed in
  mret (foldl (fill_step created_counts completed_counts) timeline
          (t_date <$> timeline)).

(** *** Ranking *)

Record ranking_row := {
  rk_member : pystr;
  rk_created : Z;
  rk_completed : Z;
  completion_rate : pyfloat
}.

(** [a / b] on two integer columns: no exception, an infinity or NaN when
    [b] is zero. *)
Definition pd_div (a b : Z) : pyfloat :=
  if b =? 0 then (if a =? 0 then NaN else Inf)
  else Fin (inject_Z a / inject_Z b).

(** Rounding to the nearest integer, a half going to the even side. *)
Definition round_half_even (q : Q) : Z :=
  let f := Qfloor q in
  match Qcompare (q - inject_Z f) (1 # 2) with
  | Lt => f
  | Gt => f + 1
  | Eq => if Z.even f then f else f + 1
  end.

(** [q] divided by 2 to the [e]. *)
Definition Qscale (q : Q) (e : Z) : Q :=
  if e <=? 0 then q * inject_Z (2 ^ (- e)) else q / inject_Z (2 ^ e).

(** The exponent [e] of the last bit of the float64 nearest to [n / d], for
    [n] positive: the one with 2^52 ≤ (n / d) / 2^e < 2^53. *)
Definition ulp_exponent (n : Z) (d : positive) : Z :=
  let e := Z.log2 n - Z.log2 (Z.pos d) - 52 in
  if Qle_bool (inject_Z (2 ^ 52)) (Qscale (n # d) e) then e else e - 1.

(** The float64 nearest to a positive rational, a tie going to the even
    significand (exponents are not bounded: the quotients and percentages
    of the ranking are far from the overflow and underflow thresholds). *)
Definition b64_pos (q : Q) : Q :=
  let e := ulp_exponent (Qnum q) (Qden q) in
  Qscale (inject_Z (round_half_even (Qscale q e))) (- e).

(** The float64 nearest to a rational: the result of a float64 operation
    whose exact result is [q]. *)
Definition b64 (q : Q) : Q :=
  match Qnum q with
  | 0 => 0
  | Z.pos _ => b64_pos q
  | Z.neg _ => - b64_pos (- q)
  end.

(** [Series.round(1)], as numpy computes it: [rint(x * 10) / 10] in
    float64. *)
Definition round1 (x : Q) : Q :=
  b64 (inject_Z (round_half_even (b64 (x * 10))) / 10).

(** [(x * 100).round(1)] on the float64 quotient: [pd_div] gives the exact
    quotient of the two integers, which is rounded to float64 here, before
    the product by 100 and the rounding to one decimal. *)
Definition rate_of (x : pyfloat) : pyfloat :=
  match x with
  | Fin q => Fin (round1 (b64 (b64 q * 100)))
  | Inf => Inf
  | NaN => NaN
  end.

Definition with_rate (r : member_row) : ranking_row :=
  {| rk_member := member r; rk_created := created r;
     rk_completed := completed r;
     completion_rate := rate_of (pd_div (completed r) (created r)) |}.

Definition get_productivity_ranking (df_cards : DataFrame)
    (start_date end_date : datetime) : result (list ranking_row) :=
  df_members ← get_cards_by_member df_cards start_date end_date;
  match df_members with
  | [] => mret []
  | _ :: _ => mret (sorted_desc rk_completed (with_rate <$> df_members))
  end.

(** ** Configuration *)

(** The class attributes of [Config]. *)
Record Config := {
  TRELLO_API_KEY : string;
  TRELLO_TOKEN : string;
  TRELLO_BOARD_ID : string
}.

(** [os.getenv(key, default)] *)
Definition getenv (environ : gmap string string) (key default_value : string)
    : string :=
  default default_value (environ !! key).

(** The class body of [Config]: each attribute is read from the
    environment, with the literal of the source ([defaults]) as the value of
    an unset variable. *)
Definition load_config (defaults : Config) (environ : gmap string string)
    : Config :=
  {| TRELLO_API_KEY := getenv environ "TRELLO_API_KEY" (TRELLO_API_KEY defaults);
     TRELLO_TOKEN := getenv environ "TRELLO_TOKEN" (TRELLO_TOKEN defaults);
     TRELLO_BOARD_ID := getenv environ "TRELLO_BOARD_ID" (TRELLO_BOARD_ID defaults) |}.

(** The truth value of a [str]. *)
Definition truthy (s : string) : bool := negb (bool_decide (s = ""%string)).

(** [Config.is_configured()] *)
Definition is_configured (cfg : Config) : bool :=
  forallb truthy [TRELLO_API_KEY cfg; TRELLO_TOKEN cfg; TRELLO_BOARD_ID cfg].

(** ** The remote client and the entry point *)

(** What a run of [main] does, as seen from outside. *)
Inductive event :=
  | ShowConfigPage
  | HttpGet (url key token : string)
  | Warn (card : string)
  | ShowError
  | RenderDashboard.

Definition TRELLO_API_BASE_URL : string := "https://api.trello.com/1".

Section Client.
  (** The JSON documents, the answer of the remote service to a GET
      ([None]: the request raises), and the ids of the cards of the answer
      of the cards endpoint. *)
Variable json : Type.
Variable remote : string → option json.
Variable card_ids : json → list string.

  (** A computation that issues requests and may raise. *)
Definition io (A : Type) : Type := (list event * option A)%type.

Definition io_bind {A B} (m : io A) (f : A → io B) : io B :=
    match m with
    | (t, Some a) => let '(t', b) := f a in (t ++ t', b)
    | (t, None) => (t, None)
    end.

  (** [TrelloAPI._make_request] *)
Definition make_request (cfg : Config) (endpoint : string) : io json :=
    let url := (TRELLO_API_BASE_URL ++ endpoint)%string in
    ([HttpGet url (TRELLO_API_KEY cfg) (TRELLO_TOKEN cfg)], remote url).

Definition board_endpoint (cfg : Config) (suffix : string) : string :=
    ("/boards/" ++ TRELLO_BOARD_ID cfg ++ suffix)%string.

  (** The loop over the cards of [get_all_board_data]: a failed request is
      reported and leaves the card with no action. *)
Fixpoint fetch_actions (cfg : Config) (ids : list string)
      : io (list (string * option json)) :=
    match ids with
    | [] => ([], Some [])
    | i :: ids' =>
        let '(t, r) := make_request cfg ("/cards/" ++ i ++ "/actions")%string in
        let t := match r with Some _ => t | None => t ++ [Warn i] end in
        io_bind (t, Some r) (λ acts,
        io_bind (fetch_actions cfg ids') (λ rest,
        ([], Some ((i, acts) :: rest))))
    end.

Record board_data := {
    bd_board : json;
    bd_lists : json;
    bd_members : json;
    bd_cards : list (string * option json);
    bd_labels : json
  }.

  (** [TrelloAPI.get_all_board_data] *)
Definition get_all_board_data (cfg : Config) : io board_data :=
    io_bind (make_request cfg (board_endpoint cfg "")) (λ board_info,
    io_bind (make_request cfg (board_endpoint cfg "/lists")) (λ lists,
    io_bind (make_request cfg (board_endpoint cfg "/members")) (λ members,
    io_bind (make_request cfg (board_endpoint cfg "/cards")) (λ cards,
    io_bind (make_request cfg (board_endpoint cfg "/labels")) (λ labels,
    io_bind (fetch_actions cfg (card_ids cards)) (λ cards_with_actions,
    ([], Some {| bd_board := board_info; bd_lists := lists;
                 bd_members := members; bd_cards := cards_with_actions;
                 bd_labels := labels |}))))))).

  (** [main], up to the point where the data is handed to the metric
      engine: the configuration check comes first. *)
Definition main (cfg : Config) : list event :=
    if negb (is_configured cfg) then [ShowConfigPage]
    else
      match get_all_board_data cfg with
      | (t, None) => t ++ [ShowError]
      | (t, Some _) => t ++ [RenderDashboard]
      end.
End Client.

Definition is_request (e : event) : Prop :=
  match e with
  | HttpGet _ _ _ => True
  | _ => False
  end.
#[global] Instance row_inhabited : Inhabited row :=
  populate {| row_id := []; row_name := []; row_list := [];
              created_date := None; completed_date := None; due_date := None;
              is_overdue := false; is_closed := false; members := [];
              member_count := 0; labels := []; label_count := 0;
              completion_time_days := None |}.

(** ** Reading the operations *)

(** [t] lies in the inclusive range [[lo, hi]]; a missing date lies in none. *)
Definition in_range (lo hi : Z) (x : option Z) : bool :=
  match x with
  | Some t => (lo <=? t) && (t <=? hi)
  | None => false
  end.

(** The number of elements of a list that pass a test. *)
Definition countb {A} (f : A → bool) (l : list A) : nat :=
  length (filter (λ x, f x = true) l).

Definition on_day (day : Z) (x : option Z) : bool :=
  bool_decide (date_of <$> x = Some day).

(** The number of dates of a column that fall on the calendar day [day]. *)
Definition count_on_day (col : list (option Z)) (day : Z) : Z :=
  Z.of_nat (countb (on_day day) col).

(** The row of the timeline for the day that starts the instant [d]. *)
Definition timeline_row_of (df : DataFrame) (d : Z) : timeline_row :=
  {| t_date := d;
     t_created := count_on_day (created_date <$> rows df) (date_of d);
     t_completed := count_on_day (completed_date <$> rows df) (date_of d) |}.

(** What one pass of the filling loop makes of a row. *)
Definition filled (cc co : gmap Z Z) (r : timeline_row) : timeline_row :=
  {| t_date := t_date r;
     t_created := default (t_created r) (cc !! date_of (t_date r));
     t_completed := default (t_completed r) (co !! date_of (t_date r)) |}.

Definition Zsum (l : list Z) : Z := foldr Z.add 0 l.

(** An operation that does not end in a [TypeError]. *)
Definition no_type_error {A} (m : result A) : Prop :=
  ∀ msg, m ≠ Raise (TypeError msg).

(** A board with no card at all. *)
Definition empty_board (lists members : list (pystr * pystr)) : trello_data :=
  {| td_lists := lists; td_members := members; td_cards := [] |}.

Definition naive (t : Z) : datetime := {| wall := t; aware := false |}.
Definition utc (t : Z) : datetime := {| wall := t; aware := true |}.

(** ** A sample board *)

(** Midnight (UTC) of the [n]-th of January 2024, and a time of that day. *)
Definition jan (n : Z) : Z := (19722 + n) * DAY.
Definition HOUR : Z := 3600000000.

Definition sample_lists : list (pystr * pystr) :=
  [ (of_ascii "L1", of_ascii "A Fazer");
    (of_ascii "L2", of_ascii "Fazendo");
    (of_ascii "L3", of_ascii " CONCLU" ++ [205%N] ++ of_ascii "DO ") ].

Definition sample_members : list (pystr * pystr) :=
  [ (of_ascii "M1", of_ascii "Ana"); (of_ascii "M2", of_ascii "Bruno") ].

Definition move_to (name : pystr) (t : Z) : action :=
  {| a_type := updateCard; a_date := t; a_listAfter := Some name |}.

Definition create_at (t : Z) : action :=
  {| a_type := createCard; a_date := t; a_listAfter := None |}.

(** Created on Jan 1, moved to the done list on Jan 5, still there. *)
Definition card_A : card :=
  {| card_id := of_ascii "A"; card_name := of_ascii "Card A"; closed := false;
     idList := Some (of_ascii "L3");
     actions := [move_to (of_ascii "Concluido" ) (jan 3);
                 move_to (of_ascii "conclu" ++ [237%N] ++ of_ascii "do") (jan 5);
                 move_to (of_ascii "Fazendo") (jan 2);
                 create_at (jan 1)];
     dateLastActivity := Some (jan 6); due := None; dueComplete := false;
     idMembers := [of_ascii "M1"; of_ascii "M2"];
     card_labels := [of_ascii "bug"] |}.

(** Created on Jan 2, in progress, due on Dec 31 and not complete. *)
Definition card_B : card :=
  {| card_id := of_ascii "B"; card_name := of_ascii "Card B"; closed := false;
     idList := Some (of_ascii "L2");
     actions := [create_at (jan 2)];
     dateLastActivity := Some (jan 2); due := Some (jan 0);
     dueComplete := false;
     idMembers := [of_ascii "M1"]; card_labels := [] |}.

(** Moved into the done list on Jan 4 and out of it again on Jan 7. *)
Definition card_C : card :=
  {| card_id := of_ascii "C"; card_name := of_ascii "Card C"; closed := false;
     idList := Some (of_ascii "L2");
     actions := [create_at (jan 3);
                 move_to (of_ascii "Conclu" ++ [237%N] ++ of_ascii "do") (jan 4);
                 move_to (of_ascii "Fazendo") (jan 7)];
     dateLastActivity := Some (jan 7); due := None; dueComplete := false;
     idMembers := []; card_labels := [] |}.

(** In the done list, with a history that holds a single ['updateCard']
    into another list and no ['createCard']. *)
Definition card_D : card :=
  {| card_id := of_ascii "D"; card_name := of_ascii "Card D"; closed := false;
     idList := Some (of_ascii "L3");
     actions := [move_to (of_ascii "Fazendo") (jan 8)];
     dateLastActivity := Some (jan 9 + 5 * HOUR); due := None;
     dueComplete := false;
     idMembers := [of_ascii "M9"]; card_labels := [] |}.

Definition sample_data : trello_data :=
  {| td_lists := sample_lists; td_members := sample_members;
     td_cards := [card_A; card_B; card_C; card_D] |}.

Definition sample_now : Z := jan 20.

Definition sample_frame : DataFrame := create_cards_dataframe sample_now sample_data.

Definition sample_row (c : card) : option row :=
  derive_card sample_now (dict_of sample_lists) (dict_of sample_members) c.

Definition row_A : row :=
  Eval vm_compute in default inhabitant (sample_row card_A).
Definition row_C : row :=
  Eval vm_compute in default inhabitant (sample_row card_C).
Definition row_D : row :=
  Eval vm_compute in default inhabitant (sample_row card_D).

Definition sample_ranking : list ranking_row :=
  Eval vm_compute in
    match get_productivity_ranking sample_frame (naive (jan 1)) (naive (jan 10)) with
    | Ok rk => rk
    | Raise _ => []
    end.

(** ** The date range of the dashboard *)

(** [datetime.min.time()] and [datetime.max.time()], as microseconds of the
    day: 00:00:00 and 23:59:59.999999. *)
Definition time_min : Z := 0.
Definition time_max : Z := DAY - 1.

(** [datetime.combine(d, t)]: the date of [d], whose time fields are
    ignored when it is a datetime, at the time [t], with no [tzinfo]. *)
Definition combine (d t : Z) : datetime := naive (date_of d * DAY + t).

(** The choices of the period selector; [Personalizado] carries the two
    dates of the date inputs. *)
Inductive period_option :=
  | Ultimo_mes
  | Ultimos_3_meses
  | Ultimos_6_meses
  | Ultimo_ano
  | Personalizado (de ate : Z).

(** [days_map]; its keys are the four fixed periods. *)
Definition days_map (p : period_option) : option Z :=
  match p with
  | Ultimo_mes => Some 30
  | Ultimos_3_meses => Some 90
  | Ultimos_6_meses => Some 180
  | Ultimo_ano => Some 365
  | Personalizado _ _ => None
  end.

(** The branch of [main] on the period: [start_date] and [end_date], with
    the two readings [now1] and [now2] of [datetime.now()]. *)
Definition selected_dates (now1 now2 : Z) (p : period_option) : Z * Z :=
  match p with
  | Personalizado de ate => (de, ate)
  | _ => (now1 - default 0 (days_map p) * DAY, now2)
  end.

(** [start_datetime] and [end_datetime] of [main]. *)
Definition selected_range (now1 now2 : Z) (p : period_option)
    : datetime * datetime :=
  let '(start_date, end_date) := selected_dates now1 now2 p in
  (combine start_date time_min, combine end_date time_max).

(** ** More readings of the operations *)

(** The order of a sort by a boolean comparison. *)
Definition leb_rel {A} (leb : A → A → bool) (x y : A) : Prop := leb x y = true.

(** The number of rows a card contributes to the per-member table. *)
Definition appearances (r : row) : Z :=
  Z.of_nat (length (explode_members r)).

(** The row of the per-member table for one group. *)
Definition row_of_group (kv : pystr * (Z * Z)) : member_row :=
  {| member := fst kv; created := fst (snd kv); completed := snd (snd kv) |}.

(** A percentage between 0 and 100. *)
Definition is_percentage (x : pyfloat) : Prop :=
  ∃ q, x = Fin q ∧ (0 <= q)%Q ∧ (q <= 100)%Q.

#[global] Instance is_request_dec e : Decision (is_request e).
Proof. destruct e; cbn; apply _. Defined.

(** The requests of a run, in order. *)
Definition requests (t : list event) : list event :=
  filter is_request t.

(** The cards whose history could not be fetched, as the run reports them. *)
Definition warnings (t : list event) : list string :=
  omap (λ e, match e with Warn i => Some i | _ => None end) t.

(** The url of the request for the history of a card. *)
Definition actions_url (i : string) : string :=
  (TRELLO_API_BASE_URL ++ "/cards/" ++ i ++ "/actions")%string.

(** The url of a request about the board. *)
Definition board_url (cfg : Config) (suffix : string) : string :=
  (TRELLO_API_BASE_URL ++ board_endpoint cfg suffix)%string.

(** The five requests about the board, in the order of
    [get_all_board_data]. *)
Definition board_urls (cfg : Config) : list string :=
  board_url cfg <$> [""; "/lists"; "/members"; "/cards"; "/labels"]%string.

(** A request with the key and the token of the configuration. *)
Definition request_of (cfg : Config) (url : string) : event :=
  HttpGet url (TRELLO_API_KEY cfg) (TRELLO_TOKEN cfg).

(** What the loop over the cards does for one card. *)
Definition card_trace {json} (remote : string → option json) (cfg : Config)
    (i : string) : list event :=
  request_of cfg (actions_url i) ::
  match remote (actions_url i) with
  | Some _ => []
  | None => [Warn i]
  end.

(** An event of a fetch: a request to the service with the credentials of
    the configuration, or a warning. *)
Definition fetch_event (cfg : Config) (e : event) : Prop :=
  match e with
  | HttpGet url key token =>
      key = TRELLO_API_KEY cfg ∧ token = TRELLO_TOKEN cfg ∧
      ∃ endpoint, url = (TRELLO_API_BASE_URL ++ endpoint)%string
  | Warn _ => True
  | _ => False
  end.


(** ** A sample service *)

Definition sample_cfg : Config :=
  {| TRELLO_API_KEY := "key"; TRELLO_TOKEN := "token";
     TRELLO_BOARD_ID := "board" |}.

(** A service whose answers are lists of card ids; it answers every
    request but the one for the history of the card "c2". *)
Definition sample_remote (url : string) : option (list string) :=
  if bool_decide (url = actions_url "c2") then None else Some ["c1"; "c2"]%string.

(** A service that does not answer the request for the members. *)
Definition failing_remote (url : string) : option (list string) :=
  if bool_decide (url = board_url sample_cfg "/members") then None
  else Some ["c1"; "c2"]%string.

(** * Properties *)

(** ** Sorting *)

Section SortFacts.
Context {A : Type} (leb : A → A → bool).

Lemma insert_by_Permutation x l : insert_by leb x l ≡ₚ x :: l.
  Proof.
    induction l as [|y l IH]; simpl; [done|].
    destruct (leb x y); [done|].
    rewrite IH. apply Permutation_swap.
  Qed.

Lemma sort_by_Permutation l : sort_by leb l ≡ₚ l.
  Proof.
    induction l as [|x l IH]; simpl; [done|].
    rewrite insert_by_Permutation. by f_equiv.
  Qed.

Lemma elem_of_sort_by x l : x ∈ sort_by leb l ↔ x ∈ l.
  Proof. by rewrite sort_by_Permutation. Qed.

Lemma length_sort_by l : length (sort_by leb l) = length l.
  Proof. by rewrite sort_by_Permutation. Qed.
End SortFacts.

Lemma elem_of_sorted {A} (key : A → Z) x l : x ∈ sorted key l ↔ x ∈ l.
Proof. apply elem_of_sort_by. Qed.

Lemma elem_of_sorted_desc {A} (key : A → Z) x l : x ∈ sorted_desc key l ↔ x ∈ l.
Proof. apply elem_of_sort_by. Qed.

Lemma elem_of_rev {A} (x : A) l : x ∈ rev l ↔ x ∈ l.
Proof. by rewrite !list_elem_of_In, <- in_rev. Qed.

Section SortedByKey.
Context {A : Type} (key : A → Z).

Lemma insert_by_key_sorted x l :
    StronglySorted (key_le key) l →
    StronglySorted (key_le key) (insert_by (λ x y, key x <=? key y) x l).
  Proof.
    induction 1 as [|y l Hl IH Hy]; simpl.
    - repeat constructor.
    - destruct (Z.leb_spec (key x) (key y)) as [Hxy|Hxy].
      + constructor; [by constructor|].
        constructor; [done|].
        eapply Forall_impl; [exact Hy|]. unfold key_le. intros; lia.
      + constructor; [done|].
        rewrite insert_by_Permutation. constructor; [|done].
        unfold key_le. lia.
  Qed.

Lemma sorted_StronglySorted l : StronglySorted (key_le key) (sorted key l).
  Proof.
    induction l as [|x l IH]; simpl; [constructor|].
    by apply insert_by_key_sorted.
  Qed.

Lemma StronglySorted_rev l :
    StronglySorted (key_le key) l → StronglySorted (flip (key_le key)) (rev l).
  Proof.
    induction 1 as [|x l Hl IH Hx]; simpl; [constructor|].
    apply StronglySorted_app_2; [|done|repeat constructor].
    intros a b Ha Hb. apply list_elem_of_singleton in Hb as ->.
    rewrite elem_of_rev in Ha.
    rewrite Forall_forall in Hx. by apply Hx.
  Qed.

  (** The first element of a sorted list that passes a test is below every
      element that passes it. *)
Lemma find_sorted_first (R : relation A) `{!Reflexive R} P l a :
    StronglySorted R l →
    List.find P l = Some a →
    a ∈ l ∧ P a = true ∧ ∀ b, b ∈ l → P b = true → R a b.
  Proof.
    induction 1 as [|x l Hl IH Hx]; simpl; [done|].
    destruct (P x) eqn:HP.
    - intros [= ->]. split; [left|]. split; [done|].
      intros b [->|Hb]%elem_of_cons _; [done|].
      rewrite Forall_forall in Hx. by apply Hx.
    - intros Hf. destruct (IH Hf) as (Ha & HPa & Hmin).
      split; [by right|]. split; [done|].
      intros b [->|Hb]%elem_of_cons HPb; [congruence|by apply Hmin].
  Qed.

Lemma find_none_elem_of P (l : list A) :
    List.find P l = None ↔ ∀ b, b ∈ l → P b = false.
  Proof.
    induction l as [|x l IH]; simpl.
    - split; [|done]. intros _ b Hb. by apply elem_of_nil in Hb.
    - destruct (P x) eqn:HP.
      + split; [done|]. intros H. specialize (H x (list_elem_of_here _ _)).
        congruence.
      + rewrite IH. split.
        * intros H b [->|Hb]%elem_of_cons; auto.
        * intros H b Hb. apply H. by right.
  Qed.
End SortedByKey.

#[local] Instance key_le_refl {A} (key : A → Z) : Reflexive (key_le key).
Proof. intros x. unfold key_le. lia. Qed.

#[local] Instance flip_key_le_refl {A} (key : A → Z) : Reflexive (flip (key_le key)).
Proof. intros x. unfold flip, key_le. lia. Qed.

(** ** Creation and completion dates of a card *)

(** The scan for the creation date: the earliest ['createCard'], or the
    fallback when there is none. *)
Lemma card_created_date_spec c :
  (∃ a, a ∈ actions c ∧ is_createCard a = true ∧
        card_created_date c = Some (a_date a) ∧
        ∀ b, b ∈ actions c → is_createCard b = true → a_date a ≤ a_date b)
  ∨ ((∀ a, a ∈ actions c → is_createCard a = false) ∧
     card_created_date c = dateLastActivity c).
Proof.
  unfold card_created_date, sorted_actions.
  destruct (List.find is_createCard (sorted a_date (actions c))) as [a|] eqn:Hf.
  - left. exists a.
    apply (find_sorted_first (key_le a_date)) in Hf
      as (Ha & HP & Hmin); [|apply sorted_StronglySorted].
    rewrite elem_of_sorted in Ha. repeat split; [done..|].
    intros b Hb HPb. apply Hmin; [|done]. by rewrite elem_of_sorted.
  - right. split; [|done].
    intros a Ha. eapply find_none_elem_of; [exact Hf|].
    by rewrite elem_of_sorted.
Qed.

(** The scan for the completion date of a card of the done list: the
    latest move into the done list, or the fallback. *)
Lemma card_completed_date_spec n c :
  is_done_list n = true →
  (∃ a, a ∈ actions c ∧ is_move_to_done a = true ∧
        card_completed_date n c = Some (a_date a) ∧
        ∀ b, b ∈ actions c → is_move_to_done b = true → a_date b ≤ a_date a)
  ∨ ((∀ a, a ∈ actions c → is_move_to_done a = false) ∧
     card_completed_date n c = dateLastActivity c).
Proof.
  intros Hn. unfold card_completed_date, sorted_actions. rewrite Hn.
  destruct (List.find is_move_to_done (rev (sorted a_date (actions c))))
    as [a|] eqn:Hf.
  - left. exists a.
    apply (find_sorted_first (flip (key_le a_date))) in Hf
      as (Ha & HP & Hmax);
      [|apply StronglySorted_rev, sorted_StronglySorted].
    rewrite elem_of_rev, elem_of_sorted in Ha. repeat split; [done..|].
    intros b Hb HPb. apply Hmax; [|done].
    by rewrite elem_of_rev, elem_of_sorted.
  - right. split; [|done].
    intros a Ha. eapply find_none_elem_of; [exact Hf|].
    by rewrite elem_of_rev, elem_of_sorted.
Qed.

Lemma str_eqb_eq a b : str_eqb a b = true ↔ a = b.
Proof. unfold str_eqb. by rewrite bool_decide_eq_true. Qed.

Lemma derive_card_fields now ld md c r :
  derive_card now ld md c = Some r →
  closed c = false ∧
  row_list r = list_name_of ld c ∧
  created_date r = card_created_date c ∧
  completed_date r = card_completed_date (list_name_of ld c) c.
Proof.
  unfold derive_card. destruct (closed c); [done|]. by intros [= <-].
Qed.

Lemma elem_of_cards_data now ld md cards r :
  r ∈ cards_data now ld md cards ↔
  ∃ c, c ∈ cards ∧ derive_card now ld md c = Some r.
Proof. unfold cards_data. apply list_elem_of_omap. Qed.

Lemma rows_pd_DataFrame data : rows (pd_DataFrame data) = data.
Proof. done. Qed.

(** C1.  Every row of the frame whose list name, stripped and lowered, is
    not ['concluído'] has no completion date, whatever the action history of
    its card holds: a card that was moved into the done list and out of it
    again is not completed. *)
Theorem completed_date_only_in_done_list now data r :
  r ∈ rows (create_cards_dataframe now data) →
  lower (strip (row_list r)) ≠ concluido →
  completed_date r = None.
Proof.
  unfold create_cards_dataframe. rewrite rows_pd_DataFrame.
  intros (c & _ & Hc)%elem_of_cards_data Hn.
  apply derive_card_fields in Hc as (_ & Hl & _ & ->).
  unfold card_completed_date, is_done_list. rewrite <- Hl.
  destruct (str_eqb _ _) eqn:E; [|done].
  by apply str_eqb_eq in E.
Qed.

(** The card of the sample board that went Fazendo → Concluído on Jan 4 and
    Concluído → Fazendo on Jan 7 has no completion date. *)
Lemma completed_date_only_in_done_list_witness :
  row_id row_C = of_ascii "C" ∧ completed_date row_C = None.
Proof.
  split; [reflexivity|].
  apply (completed_date_only_in_done_list sample_now sample_data row_C).
  - vm_compute. do 2 apply list_elem_of_further. apply list_elem_of_here.
  - vm_compute. discriminate.
Defined.

(** C5.  For a card of the done list, the completion date is the date of
    the latest action of type ['updateCard'] whose ['listAfter'] name,
    stripped and lowered, is ['concluído']; when the history has no such
    action it is the card's [dateLastActivity]. *)
Theorem completed_date_in_done_list now ld md c r :
  derive_card now ld md c = Some r →
  lower (strip (row_list r)) = concluido →
  (∃ a, a ∈ actions c ∧ is_move_to_done a = true ∧
        completed_date r = Some (a_date a) ∧
        ∀ b, b ∈ actions c → is_move_to_done b = true → a_date b ≤ a_date a)
  ∨ ((∀ a, a ∈ actions c → is_move_to_done a = false) ∧
     completed_date r = dateLastActivity c).
Proof.
  intros (_ & Hl & _ & ->)%derive_card_fields Hn.
  apply card_completed_date_spec.
  unfold is_done_list. rewrite <- Hl. by apply str_eqb_eq.
Qed.

(** Card A of the sample board was moved into the done list on Jan 3
    (under another spelling, which does not count) and on Jan 5. *)
Lemma completed_date_in_done_list_witness :
  (∃ a, a ∈ actions card_A ∧ is_move_to_done a = true ∧
        completed_date row_A = Some (a_date a) ∧
        ∀ b, b ∈ actions card_A → is_move_to_done b = true →
             a_date b ≤ a_date a)
  ∨ ((∀ a, a ∈ actions card_A → is_move_to_done a = false) ∧
     completed_date row_A = dateLastActivity card_A).
Proof.
  apply (completed_date_in_done_list sample_now (dict_of sample_lists)
           (dict_of sample_members) card_A row_A).
  - vm_compute. reflexivity.
  - vm_compute. reflexivity.
Defined.

Example completed_date_row_A : completed_date row_A = Some (jan 5).
Proof. reflexivity. Qed.

(** A card of the done list whose history has no move into it takes its
    [dateLastActivity]. *)
Example completed_date_row_D :
  completed_date row_D = dateLastActivity card_D.
Proof. reflexivity. Qed.

(** C6.  The creation date of a card is the date of the earliest action of
    type ['createCard'] of its history; when the history has none (for
    instance when it holds a single ['updateCard']) it is the card's
    [dateLastActivity], so that it is missing only when there is neither a
    ['createCard'] nor a [dateLastActivity]. *)
Theorem created_date_earliest_or_fallback now ld md c r :
  derive_card now ld md c = Some r →
  ((∃ a, a ∈ actions c ∧ is_createCard a = true ∧
         created_date r = Some (a_date a) ∧
         ∀ b, b ∈ actions c → is_createCard b = true → a_date a ≤ a_date b)
   ∨ ((∀ a, a ∈ actions c → is_createCard a = false) ∧
      created_date r = dateLastActivity c))
  ∧ (created_date r = None ↔
     (∀ a, a ∈ actions c → is_createCard a = false) ∧
     dateLastActivity c = None).
Proof.
  intros (_ & _ & -> & _)%derive_card_fields.
  pose proof (card_created_date_spec c) as H. split; [exact H|].
  destruct H as [(a & Ha & HP & -> & _)|[Hno ->]].
  - split; [done|]. intros [Hno _]. specialize (Hno a Ha). congruence.
  - split; [by intros ->|]. by intros [_ ->].
Qed.

(** Card D of the sample board, whose history is a single ['updateCard']. *)
Lemma created_date_earliest_or_fallback_witness :
  ((∃ a, a ∈ actions card_D ∧ is_createCard a = true ∧
         created_date row_D = Some (a_date a) ∧
         ∀ b, b ∈ actions card_D → is_createCard b = true →
              a_date a ≤ a_date b)
   ∨ ((∀ a, a ∈ actions card_D → is_createCard a = false) ∧
      created_date row_D = dateLastActivity card_D))
  ∧ (created_date row_D = None ↔
     (∀ a, a ∈ actions card_D → is_createCard a = false) ∧
     dateLastActivity card_D = None).
Proof.
  apply (created_date_earliest_or_fallback sample_now (dict_of sample_lists)
           (dict_of sample_members) card_D row_D).
  vm_compute. reflexivity.
Defined.

Example created_date_row_D :
  actions card_D = [move_to (of_ascii "Fazendo") (jan 8)] ∧
  created_date row_D = dateLastActivity card_D.
Proof. split; reflexivity. Qed.

Example created_date_row_A : created_date row_A = Some (jan 1).
Proof. reflexivity. Qed.

(** ** Columns, masks and range bounds *)

Ltac result_simpl := cbn [mbind mret result_bind result_ret].

(** Case analysis on the integer comparisons of the goal. *)
Ltac bool_lia :=
  repeat match goal with
         | |- context [?a <=? ?b] => destruct (Z.leb_spec a b)
         | |- context [?a <? ?b] => destruct (Z.ltb_spec a b)
         end;
  cbn [andb orb negb]; first [done | lia].

Lemma to_utc_aware d : aware (to_utc d) = true.
Proof. unfold to_utc. by destruct (aware d) eqn:E. Qed.

Lemma wall_to_utc d : wall (to_utc d) = wall d.
Proof. unfold to_utc. by destruct (aware d). Qed.

Lemma to_utc_localize d : to_utc (utc_localize d) = to_utc d.
Proof. unfold to_utc. destruct d as [w []]; done. Qed.

Lemma series_cmp_aware cmp col d :
  aware d = true →
  series_cmp cmp col d =
    Ok (map (λ x, match x with Some t => cmp t (wall d) | None => false end) col).
Proof. intros H. unfold series_cmp. by rewrite H. Qed.

(** With bounds brought to UTC the mask of a range is computed whenever the
    column exists, and the only possible failure is the missing column. *)
Lemma mask_range_to_utc df c proj s e :
  mask_range df c proj (to_utc s) (to_utc e) =
    if bool_decide (c ∈ columns df)
    then Ok (map (λ r, in_range (wall s) (wall e) (proj r)) (rows df))
    else Raise (KeyError c).
Proof.
  unfold mask_range, getitem, series_ge, series_le.
  destruct (bool_decide (c ∈ columns df)); [|done]. cbn.
  rewrite !series_cmp_aware by apply to_utc_aware. cbn. f_equal.
  rewrite !wall_to_utc.
  induction (rows df) as [|r l IH]; cbn; [done|]. f_equal; [|exact IH].
  destruct (proj r) as [t|]; cbn; [|done]. by rewrite Z.geb_leb.
Qed.

Lemma zip_filter_mask {A} (f : A → bool) (l : list A) :
  fst <$> filter (λ p, snd p = true) (zip l (map f l)) =
  filter (λ r, f r = true) l.
Proof.
  induction l as [|x l IH]; [done|].
  change (zip (x :: l) (map f (x :: l))) with ((x, f x) :: zip l (map f l)).
  rewrite !filter_cons. cbn [snd]. destruct (f x) eqn:E.
  - rewrite !decide_True by done. rewrite fmap_cons. cbn [fst]. by rewrite IH.
  - rewrite !decide_False by done. exact IH.
Qed.

Lemma rows_select_map df (f : row → bool) :
  rows (select df (map f (rows df))) = filter (λ r, f r = true) (rows df).
Proof. apply zip_filter_mask. Qed.

Lemma columns_pd_DataFrame r l : columns (pd_DataFrame (r :: l)) = card_columns.
Proof. done. Qed.

Lemma columns_nonempty data c :
  data ≠ [] → c ∈ card_columns → c ∈ columns (pd_DataFrame data).
Proof. by destruct data. Qed.

Lemma filter_by_date_range_eq df s e :
  filter_by_date_range df s e =
    if bool_decide ("created_date"%string ∈ columns df)
    then Ok (select df (map (λ r, in_range (wall s) (wall e) (created_date r))
                          (rows df)))
    else Raise (KeyError "created_date").
Proof.
  unfold filter_by_date_range. rewrite mask_range_to_utc.
  by destruct (bool_decide _).
Qed.

Lemma filter_by_date_range_localize df s e :
  filter_by_date_range df s e =
  filter_by_date_range df (utc_localize s) (utc_localize e).
Proof. unfold filter_by_date_range. by rewrite !to_utc_localize. Qed.

(** ** Ranges with naive bounds *)

(** C2, as the code has it.  Every operation on a date range first brings
    a naive bound to UTC, keeping its wall-clock fields: it gives what it
    gives on the aware bounds with the same fields, and it never ends in the
    [TypeError] of a comparison between a naive and an aware datetime. *)
Theorem naive_bounds_are_localized df s e :
  let s' := utc_localize s in
  let e' := utc_localize e in
  (get_cards_created_count df s e = get_cards_created_count df s' e' ∧
   no_type_error (get_cards_created_count df s e)) ∧
  (get_cards_completed_count df s e = get_cards_completed_count df s' e' ∧
   no_type_error (get_cards_completed_count df s e)) ∧
  (get_cards_by_member df s e = get_cards_by_member df s' e' ∧
   no_type_error (get_cards_by_member df s e)) ∧
  (get_cards_by_label df s e = get_cards_by_label df s' e' ∧
   no_type_error (get_cards_by_label df s e)) ∧
  (get_average_completion_time df s e = get_average_completion_time df s' e' ∧
   no_type_error (get_average_completion_time df s e)) ∧
  (get_cards_timeline df s e = get_cards_timeline df s' e' ∧
   no_type_error (get_cards_timeline df s e)) ∧
  (get_productivity_ranking df s e = get_productivity_ranking df s' e' ∧
   no_type_error (get_productivity_ranking df s e)).
Proof.
  cbn zeta.
  assert (Hm : ∀ s e,
    get_cards_by_member df s e = Raise (KeyError "created_date") ∨
    ∃ v, get_cards_by_member df s e = Ok v).
  { intros s0 e0. unfold get_cards_by_member.
    rewrite filter_by_date_range_eq.
    destruct (bool_decide _); [right|by left]. cbn.
    destruct (flat_map _ _); eauto. }
  repeat split.
  - unfold get_cards_created_count. by rewrite filter_by_date_range_localize.
  - unfold get_cards_created_count. rewrite filter_by_date_range_eq.
    by destruct (bool_decide _).
  - unfold get_cards_completed_count. by rewrite !to_utc_localize.
  - unfold get_cards_completed_count. rewrite mask_range_to_utc.
    by destruct (bool_decide _).
  - unfold get_cards_by_member. by rewrite filter_by_date_range_localize.
  - intros msg. by destruct (Hm s e) as [->|[v ->]].
  - unfold get_cards_by_label. by rewrite filter_by_date_range_localize.
  - unfold get_cards_by_label. rewrite filter_by_date_range_eq.
    destruct (bool_decide _); [|done]. cbn. by destruct (flat_map _ _).
  - unfold get_average_completion_time. by rewrite !to_utc_localize.
  - unfold get_average_completion_time. rewrite mask_range_to_utc.
    destruct (bool_decide _); [|done]. cbn.
    intros msg. case_match; [done|].
    unfold getitem. cbn. by destruct (bool_decide _).
  - unfold get_cards_timeline. by rewrite !to_utc_localize.
  - unfold get_cards_timeline, getitem.
    intros msg. by repeat (destruct (bool_decide _); cbn).
  - unfold get_productivity_ranking, get_cards_by_member.
    by rewrite filter_by_date_range_localize.
  - intros msg. unfold get_productivity_ranking.
    destruct (Hm s e) as [->|[v ->]]; [done|]. cbn. by destruct v.
Qed.

(** A naive range over the sample board, whose dates are all aware: the
    count of completed cards is returned, nothing is raised. *)
Lemma naive_bounds_do_not_raise :
  aware (naive (jan 1)) = false ∧
  completed_date row_A = Some (jan 5) ∧
  row_A ∈ rows sample_frame ∧
  get_cards_completed_count sample_frame (naive (jan 1)) (naive (jan 10)) = Ok 2%nat ∧
  ¬ raises (get_cards_completed_count sample_frame (naive (jan 1)) (naive (jan 10))).
Proof.
  split; [reflexivity|]. split; [reflexivity|].
  split; [vm_compute; apply list_elem_of_here|].
  assert (H : get_cards_completed_count sample_frame (naive (jan 1))
                (naive (jan 10)) = Ok 2%nat) by (vm_compute; reflexivity).
  split; [exact H|]. rewrite H. intros [e He]. discriminate.
Qed.

(** ** A board without cards *)

Lemma empty_board_frame now lists members :
  create_cards_dataframe now (empty_board lists members) =
  {| columns := []; rows := [] |}.
Proof. done. Qed.

(** C4, on the code.  The frame of a board without cards has no column, and
    each of the nine operations of the metric engine ends in the [KeyError]
    of its first column access instead of an empty or zero result. *)
Theorem empty_board_operations_raise now lists members s e :
  let df := create_cards_dataframe now (empty_board lists members) in
  get_cards_created_count df s e = Raise (KeyError "created_date") ∧
  get_cards_completed_count df s e = Raise (KeyError "completed_date") ∧
  get_cards_in_progress_count df = Raise (KeyError "list") ∧
  get_overdue_cards df = Raise (KeyError "is_overdue") ∧
  get_cards_timeline df s e = Raise (KeyError "created_date") ∧
  get_cards_by_member df s e = Raise (KeyError "created_date") ∧
  get_cards_by_label df s e = Raise (KeyError "created_date") ∧
  get_average_completion_time df s e = Raise (KeyError "completed_date") ∧
  get_productivity_ranking df s e = Raise (KeyError "created_date").
Proof.
  cbn zeta. rewrite empty_board_frame.
  unfold get_cards_created_count, get_cards_completed_count,
    get_productivity_ranking, get_cards_by_member, get_cards_by_label,
    get_average_completion_time.
  rewrite !filter_by_date_range_eq, !mask_range_to_utc.
  repeat split; reflexivity.
Qed.

(** The same holds for a board whose cards are all archived. *)
Lemma archived_board_frame now data :
  Forall (λ c, closed c = true) (td_cards data) →
  create_cards_dataframe now data = {| columns := []; rows := [] |}.
Proof.
  intros H. unfold create_cards_dataframe.
  assert (cards_data now (dict_of (td_lists data)) (dict_of (td_members data))
            (td_cards data) = []) as ->; [|done].
  induction H as [|c l Hc _ IH]; [done|].
  unfold cards_data in *. cbn. unfold derive_card at 1. rewrite Hc. exact IH.
Qed.

(** C8, on the code.  No card of a board without cards has a completion
    date in any range, and the average completion time is not 0 there: the
    operation ends in a [KeyError]. *)
Theorem average_completion_time_empty_board now lists members s e :
  let df := create_cards_dataframe now (empty_board lists members) in
  (∀ r, r ∈ rows df → in_range (wall s) (wall e) (completed_date r) = false) ∧
  get_average_completion_time df s e = Raise (KeyError "completed_date") ∧
  get_average_completion_time df s e ≠ Ok (Fin 0).
Proof.
  cbn zeta. rewrite empty_board_frame. split.
  - intros r Hr. by apply elem_of_nil in Hr.
  - unfold get_average_completion_time. rewrite mask_range_to_utc.
    split; [reflexivity|discriminate].
Qed.

(** On a frame that has its columns the operation is as specified: 0 when
    no completion date lies in the range, else the mean of the completion
    times of the rows whose completion date lies in it. *)
Lemma average_completion_time_with_columns df s e :
  columns df = card_columns →
  let hits := filter (λ r, in_range (wall s) (wall e) (completed_date r) = true)
                (rows df) in
  get_average_completion_time df s e =
    Ok (match hits with
        | [] => Fin 0
        | _ :: _ => series_mean (completion_time_days <$> hits)
        end).
Proof.
  intros Hc. cbn zeta. unfold get_average_completion_time.
  rewrite mask_range_to_utc, Hc.
  rewrite bool_decide_eq_true_2 by (unfold card_columns; set_solver).
  result_simpl. rewrite rows_select_map. case_match; [done|].
  unfold getitem. cbn [columns select]. rewrite Hc.
  rewrite bool_decide_eq_true_2 by (unfold card_columns; set_solver).
  result_simpl. by rewrite rows_select_map, H.
Qed.

(** ** Counting *)

Lemma countb_cons {A} (f : A → bool) x l :
  countb f (x :: l) = ((if f x then 1 else 0) + countb f l)%nat.
Proof.
  unfold countb. rewrite filter_cons. destruct (f x).
  - by rewrite decide_True.
  - by rewrite decide_False.
Qed.

Lemma countb_nil {A} (f : A → bool) : countb f [] = 0%nat.
Proof. done. Qed.

Lemma countb_fmap {A B} (f : B → bool) (g : A → B) l :
  countb f (g <$> l) = countb (λ x, f (g x)) l.
Proof.
  induction l as [|x l IH]; [done|].
  rewrite fmap_cons, !countb_cons. by rewrite IH.
Qed.

Lemma countb_ext {A} (f g : A → bool) l :
  (∀ x, f x = g x) → countb f l = countb g l.
Proof.
  intros H. induction l as [|x l IH]; [done|].
  by rewrite !countb_cons, H, IH.
Qed.

Lemma countb_false {A} (f : A → bool) l :
  (∀ x, f x = false) → countb f l = 0%nat.
Proof.
  intros H. induction l as [|x l IH]; [done|].
  by rewrite countb_cons, H, IH.
Qed.

Lemma on_day_Some day t : on_day day (Some t) = bool_decide (date_of t = day).
Proof. unfold on_day. cbn. apply bool_decide_ext. naive_solver. Qed.

Lemma on_day_None day : on_day day None = false.
Proof. done. Qed.

Lemma Zsum_app l1 l2 : Zsum (l1 ++ l2) = Zsum l1 + Zsum l2.
Proof. unfold Zsum. induction l1 as [|x l1 IH]; cbn; [done|]. rewrite IH. lia. Qed.

(** The days [a], [a] + 1, ..., [a] + [n] - 1 partition the dates that fall
    on one of them. *)
Lemma count_days_sum (col : list (option Z)) a n :
  Zsum (map (λ k, count_on_day col (a + Z.of_nat k)) (seq 0 n)) =
  Z.of_nat (countb (λ x, match x with
                         | Some t => (a <=? date_of t) && (date_of t <? a + Z.of_nat n)
                         | None => false
                         end) col).
Proof.
  induction n as [|n IH].
  - cbn. rewrite countb_false; [done|]. intros [t|]; [|done]. bool_lia.
  - rewrite seq_S, map_app, Zsum_app, IH. cbn [map Zsum plus].
    unfold count_on_day. clear IH.
    induction col as [|x col IHc]; [done|].
    rewrite !countb_cons. unfold Zsum in *. cbn [foldr] in *. revert IHc.
    repeat match goal with
           | |- context [countb ?f col] => generalize (countb f col); intro
           end.
    intros IHc. destruct x as [t|].
    + rewrite on_day_Some. case_bool_decide; bool_lia.
    + rewrite on_day_None. lia.
Qed.

(** ** The timeline *)

Lemma groupby_size_lookup days d :
  default 0 (groupby_size days !! d) =
  Z.of_nat (countb (λ x, bool_decide (x = d)) days) ∧
  (groupby_size days !! d = None → countb (λ x, bool_decide (x = d)) days = 0%nat).
Proof.
  induction days as [|x days [IH1 IH2]]; [done|].
  cbn [groupby_size foldr]. fold (groupby_size days).
  rewrite countb_cons, lookup_insert. destruct (decide (x = d)) as [->|Hne].
  - rewrite bool_decide_eq_true_2 by done. cbn. split; [lia|done].
  - rewrite bool_decide_eq_false_2 by done. cbn. done.
Qed.

Lemma day_counts_lookup col day :
  default 0 (day_counts col !! day) = count_on_day col day.
Proof.
  unfold day_counts, count_on_day.
  rewrite (proj1 (groupby_size_lookup _ _)). f_equal.
  induction col as [|x col IH]; [done|].
  rewrite countb_cons. destruct x as [t|].
  - change (omap id (Some t :: col)) with (t :: omap id col).
    by rewrite fmap_cons, countb_cons, IH, on_day_Some.
  - change (omap id (None :: col)) with (omap id col).
    by rewrite IH, on_day_None.
Qed.

Lemma day_counts_lookup_None col day :
  day_counts col !! day = None → count_on_day col day = 0.
Proof.
  intros H. rewrite <- day_counts_lookup. by rewrite H.
Qed.

Lemma filled_idemp cc co r : filled cc co (filled cc co r) = filled cc co r.
Proof.
  unfold filled. cbn. f_equal.
  - by destruct (cc !! _).
  - by destruct (co !! _).
Qed.

Lemma fill_step_eq cc co tl d :
  fill_step cc co tl d =
  map (λ r, if bool_decide (t_date r = d) then filled cc co r else r) tl.
Proof.
  assert (Hid : ∀ (f : timeline_row → timeline_row) l,
             (∀ r, f r = r) → l = map f l).
  { intros f l H. induction l as [|r l IH]; cbn; [done|]. by rewrite H, <- IH. }
  unfold fill_step, loc_set_created, loc_set_completed, filled.
  destruct (cc !! date_of d) as [v|] eqn:Ec;
    destruct (co !! date_of d) as [w|] eqn:Eo;
    rewrite ?map_map;
    [apply map_ext|apply map_ext|apply map_ext|apply Hid];
    intros [dt a b]; cbn;
    destruct (decide (dt = d)) as [->|Hne];
    repeat (case_bool_decide; cbn in *);
    rewrite ?Ec, ?Eo; try done.
Qed.

(** The loop over the dates fills each row whose date is visited. *)
Lemma fill_loop_eq cc co ds tl :
  foldl (fill_step cc co) tl ds =
  map (λ r, if bool_decide (t_date r ∈ ds) then filled cc co r else r) tl.
Proof.
  revert tl. induction ds as [|d ds IH]; intros tl; cbn [foldl].
  - rewrite <- (map_id tl) at 1. apply map_ext. intros r.
    rewrite bool_decide_eq_false_2; [done|]. apply not_elem_of_nil.
  - rewrite IH, fill_step_eq, map_map. apply map_ext. intros r.
    destruct (decide (t_date r = d)) as [Hd|Hd].
    + rewrite (bool_decide_eq_true_2 (t_date r = d)) by done.
      rewrite (bool_decide_eq_true_2 (t_date r ∈ d :: ds)) by (rewrite Hd; left).
      case_bool_decide; [apply filled_idemp|done].
    + rewrite (bool_decide_eq_false_2 (t_date r = d)) by done.
      rewrite (bool_decide_ext (t_date r ∈ d :: ds) (t_date r ∈ ds)); [done|].
      rewrite elem_of_cons. intuition congruence.
Qed.

Lemma DAY_pos : 0 < DAY.
Proof. done. Qed.

Lemma date_of_add_days t k : date_of (t + k * DAY) = date_of t + k.
Proof. unfold date_of. apply Z.div_add. pose proof DAY_pos. lia. Qed.

Lemma date_range_backwards s e : e < s → date_range s e = [].
Proof. intros H. unfold date_range. by rewrite (proj2 (Z.ltb_lt _ _)). Qed.

Lemma date_range_forwards s e :
  s ≤ e →
  date_range s e =
    map (λ k, s + Z.of_nat k * DAY) (seq 0 (S (Z.to_nat ((e - s) / DAY)))).
Proof. intros H. unfold date_range. by rewrite (proj2 (Z.ltb_ge _ _)). Qed.

Lemma length_date_range s e :
  s ≤ e → Z.of_nat (length (date_range s e)) = (e - s) / DAY + 1.
Proof.
  intros H. rewrite date_range_forwards by done.
  rewrite length_map, length_seq.
  pose proof DAY_pos. pose proof (Z.div_pos (e - s) DAY). lia.
Qed.

Lemma date_range_lookup s e i d :
  date_range s e !! i = Some d → d = s + Z.of_nat i * DAY.
Proof.
  unfold date_range. destruct (e <? s); [done|].
  rewrite list_lookup_fmap. intros H.
  destruct (seq _ _ !! i) as [k|] eqn:Ek; [|done].
  apply lookup_seq in Ek as [-> _]. cbn in H. by injection H as <-.
Qed.

(** On a frame that has its columns, the timeline is the list of the days
    of the range, each with the number of rows created and completed on
    that calendar day. *)
Lemma get_cards_timeline_with_columns df s e :
  columns df = card_columns →
  get_cards_timeline df s e =
    Ok (timeline_row_of df <$> date_range (wall s) (wall e)).
Proof.
  intros Hc. unfold get_cards_timeline, getitem. rewrite Hc.
  rewrite !bool_decide_eq_true_2 by (unfold card_columns; set_solver).
  result_simpl. f_equal. rewrite !wall_to_utc, fill_loop_eq.
  generalize (date_range (wall s) (wall e)). intros ds.
  assert (t_date <$> map (λ d, {| t_date := d; t_created := 0;
                                  t_completed := 0 |}) ds = ds) as ->.
  { induction ds as [|d ds IH]; [done|]. cbn. f_equal. exact IH. }
  rewrite map_map. apply map_ext_in. intros d Hd%list_elem_of_In. cbn.
  rewrite bool_decide_eq_true_2 by done.
  unfold filled, timeline_row_of. cbn. by rewrite !day_counts_lookup.
Qed.

(** The shape of the timeline of a frame that has its columns: one row per
    day from the start of the range on, in ascending order and without a
    gap, as many as the range has whole days plus one, each with the counts
    of its calendar day (0 for a day without activity). *)
Lemma timeline_rows_with_columns df s e :
  columns df = card_columns →
  wall s ≤ wall e →
  ∃ tl, get_cards_timeline df s e = Ok tl ∧
        Z.of_nat (length tl) = (wall e - wall s) / DAY + 1 ∧
        ∀ i r, tl !! i = Some r →
          t_date r = wall s + Z.of_nat i * DAY ∧
          date_of (t_date r) = date_of (wall s) + Z.of_nat i ∧
          t_created r = count_on_day (created_date <$> rows df) (date_of (t_date r)) ∧
          t_completed r = count_on_day (completed_date <$> rows df) (date_of (t_date r)).
Proof.
  intros Hc Hse. eexists. split; [by apply get_cards_timeline_with_columns|].
  split; [by rewrite length_fmap, length_date_range|].
  intros i r. rewrite list_lookup_fmap.
  destruct (date_range _ _ !! i) as [d|] eqn:Ed; [|done].
  intros [= <-]. apply date_range_lookup in Ed as ->. cbn.
  by rewrite date_of_add_days.
Qed.

(** C7, on the code.  For a board without cards the timeline of a range is
    not the list of the zero-filled days of the range: the operation ends
    in a [KeyError], whatever the range. *)
Theorem timeline_empty_board_raises now lists members s e :
  let df := create_cards_dataframe now (empty_board lists members) in
  get_cards_timeline df s e = Raise (KeyError "created_date") ∧
  ∀ tl, get_cards_timeline df s e ≠ Ok tl.
Proof.
  cbn zeta. rewrite empty_board_frame.
  assert (get_cards_timeline {| columns := []; rows := [] |} s e =
          Raise (KeyError "created_date")) as -> by reflexivity.
  by split.
Qed.

(** ** Conservation between the timeline and the count of created cards *)

Lemma range_as_days D a b t :
  0 < D →
  (D * a <=? t) && (t <=? D * b - 1) = (a <=? t / D) && (t / D <? b).
Proof.
  intros HD. pose proof (Z.div_mod t D ltac:(lia)) as Ht.
  pose proof (Z.mod_pos_bound t D HD) as Hr.
  revert Ht Hr. generalize (t / D), (t mod D). intros q r -> Hr.
  repeat match goal with
         | |- context [?a <=? ?b] => destruct (Z.leb_spec a b)
         | |- context [?a <? ?b] => destruct (Z.ltb_spec a b)
         end; cbn [andb]; try done; exfalso; nia.
Qed.

Lemma get_cards_created_count_with_columns df s e :
  columns df = card_columns →
  get_cards_created_count df s e =
    Ok (countb (λ r, in_range (wall s) (wall e) (created_date r)) (rows df)).
Proof.
  intros Hc. unfold get_cards_created_count.
  rewrite filter_by_date_range_eq, Hc.
  rewrite bool_decide_eq_true_2 by (unfold card_columns; set_solver).
  result_simpl. by rewrite rows_select_map.
Qed.

Lemma frame_columns now data :
  rows (create_cards_dataframe now data) ≠ [] →
  columns (create_cards_dataframe now data) = card_columns.
Proof.
  unfold create_cards_dataframe. by destruct (cards_data _ _ _ _).
Qed.

Lemma timeline_created_sum df s e :
  wall s mod DAY = 0 →
  (wall e + 1) mod DAY = 0 →
  Zsum (t_created <$> (timeline_row_of df <$> date_range (wall s) (wall e))) =
  Z.of_nat (countb (λ r, in_range (wall s) (wall e) (created_date r)) (rows df)).
Proof.
  intros Hs He. pose proof DAY_pos as HD.
  rewrite <- list_fmap_compose.
  destruct (Z.lt_ge_cases (wall e) (wall s)) as [Hlt|Hle].
  - rewrite date_range_backwards by done. cbn.
    rewrite countb_false; [done|]. intros r.
    destruct (created_date r) as [t|]; [|done]. cbn. bool_lia.
  - rewrite date_range_forwards by done.
    apply Z.mod_divide in Hs as [a Ha]; [|lia].
    apply Z.mod_divide in He as [b Hb]; [|lia].
    assert ((wall e - wall s) / DAY = b - a - 1) as ->.
    { replace (wall e - wall s) with ((b - a - 1) * DAY + (DAY - 1)) by lia.
      rewrite Z.div_add_l by lia. rewrite Z.div_small; lia. }
    assert (a < b) by nia.
    change (list_fmap _ _ ?f ?l) with (map f l). 
    unfold fmap. rewrite map_map.
    erewrite map_ext; [|intros k; cbn; rewrite date_of_add_days; reflexivity].
    assert (date_of (wall s) = a) as ->.
    { unfold date_of. rewrite Ha. apply Z.div_mul. lia. }
    rewrite count_days_sum, countb_fmap. f_equal. apply countb_ext. intros r.
    destruct (created_date r) as [t|]; [|done]. cbn [in_range].
    replace (wall s) with (DAY * a) by lia.
    replace (wall e) with (DAY * b - 1) by lia.
    rewrite range_as_days by done. unfold date_of. do 2 f_equal. lia.
Qed.

(** C3, as the code has it.  For a board with at least one open card and a
    range that starts at a midnight (UTC) and ends with the last microsecond
    of a day, the [created] column of the timeline sums to the count of
    created cards. *)
Theorem timeline_created_conservation now data s e :
  let df := create_cards_dataframe now data in
  rows df ≠ [] →
  wall s mod DAY = 0 →
  (wall e + 1) mod DAY = 0 →
  ∃ tl n, get_cards_timeline df s e = Ok tl ∧
          get_cards_created_count df s e = Ok n ∧
          Zsum (t_created <$> tl) = Z.of_nat n.
Proof.
  cbn zeta. intros Hne Hs He. apply frame_columns in Hne.
  eexists _, _. split; [by apply get_cards_timeline_with_columns|].
  split; [by apply get_cards_created_count_with_columns|].
  by apply timeline_created_sum.
Qed.

(** The sample board over the first ten days of January. *)
Lemma timeline_created_conservation_witness :
  ∃ tl n, get_cards_timeline sample_frame (naive (jan 1)) (naive (jan 11 - 1)) = Ok tl ∧
          get_cards_created_count sample_frame (naive (jan 1)) (naive (jan 11 - 1)) = Ok n ∧
          Zsum (t_created <$> tl) = Z.of_nat n.
Proof.
  apply (timeline_created_conservation sample_now sample_data
           (naive (jan 1)) (naive (jan 11 - 1))).
  - vm_compute. discriminate.
  - vm_compute. reflexivity.
  - vm_compute. reflexivity.
Defined.

(** A range from noon to noon: the timeline counts the card created on the
    morning of its first day, the count of created cards does not. *)
Lemma timeline_created_sum_unaligned :
  ∃ tl n,
    get_cards_timeline sample_frame (utc (jan 1 + 12 * HOUR))
      (utc (jan 3 + 12 * HOUR)) = Ok tl ∧
    get_cards_created_count sample_frame (utc (jan 1 + 12 * HOUR))
      (utc (jan 3 + 12 * HOUR)) = Ok n ∧
    Zsum (t_created <$> tl) = 3 ∧ n = 2%nat ∧
    Zsum (t_created <$> tl) ≠ Z.of_nat n.
Proof.
  eexists _, _. split; [vm_compute; reflexivity|].
  split; [vm_compute; reflexivity|].
  split; [reflexivity|]. split; [reflexivity|]. discriminate.
Qed.

(** ** The ranking *)

Lemma explode_members_created r x : x ∈ explode_members r → created x = 1.
Proof.
  unfold explode_members. destruct (members r) as [|m ms].
  - by intros ->%list_elem_of_singleton.
  - rewrite list_elem_of_In, in_map_iff. by intros (? & <- & _).
Qed.

Lemma group_add_created (m : gmap pystr (Z * Z)) (r : member_row) :
  1 ≤ created r →
  map_Forall (λ _ v, 1 ≤ fst v) m →
  map_Forall (λ _ v, 1 ≤ fst v) (group_add m r).
Proof.
  intros Hr Hm. unfold group_add. apply map_Forall_insert_2; [|done].
  destruct (m !! member r) as [v|] eqn:E; cbn; [|lia].
  specialize (Hm _ _ E). cbn in Hm. lia.
Qed.

Lemma foldl_group_add_created (l : list member_row) (m : gmap pystr (Z * Z)) :
  (∀ r, r ∈ l → 1 ≤ created r) →
  map_Forall (λ _ v, 1 ≤ fst v) m →
  map_Forall (λ _ v, 1 ≤ fst v) (foldl group_add m l).
Proof.
  revert m. induction l as [|r l IH]; intros m Hl Hm; [done|].
  cbn. apply IH.
  - intros x Hx. apply Hl. by right.
  - apply group_add_created; [|done]. apply Hl. left.
Qed.

(** Every group of [groupby('member').sum()] sums at least one row. *)
Lemma groupby_sum_created l r :
  (∀ x, x ∈ l → 1 ≤ created x) →
  r ∈ groupby_sum l → 1 ≤ created r.
Proof.
  intros Hl. unfold groupby_sum.
  rewrite elem_of_sort_by, list_elem_of_fmap.
  intros ([k v] & -> & Hkv). apply elem_of_map_to_list in Hkv. cbn.
  eapply (foldl_group_add_created l ∅ Hl); [|exact Hkv].
  apply map_Forall_empty.
Qed.

Lemma get_cards_by_member_created df s e dfm r :
  get_cards_by_member df s e = Ok dfm → r ∈ dfm → 1 ≤ created r.
Proof.
  unfold get_cards_by_member. rewrite filter_by_date_range_eq.
  destruct (bool_decide _); [|done]. result_simpl.
  destruct (flat_map _ _) as [|x l] eqn:E.
  - intros [= <-] Hr. by apply elem_of_nil in Hr.
  - intros [= <-]. rewrite elem_of_sorted_desc. apply groupby_sum_created.
    intros y Hy. rewrite <- E in Hy.
    rewrite list_elem_of_In, in_flat_map in Hy. destruct Hy as (r0 & _ & Hy).
    rewrite <- list_elem_of_In in Hy.
    apply explode_members_created in Hy. lia.
Qed.

(** C10.  Every row of the productivity ranking has a [created] count of at
    least 1, so the quotient behind its [completion_rate] has a non-zero
    divisor and the rate is a number, the rounded percentage. *)
Theorem ranking_created_positive df s e rk r :
  get_productivity_ranking df s e = Ok rk →
  r ∈ rk →
  1 ≤ rk_created r ∧
  pd_div (rk_completed r) (rk_created r) =
    Fin (inject_Z (rk_completed r) / inject_Z (rk_created r)) ∧
  ∃ q, completion_rate r = Fin q.
Proof.
  unfold get_productivity_ranking.
  destruct (get_cards_by_member df s e) as [dfm|] eqn:E; [|done].
  result_simpl. destruct dfm as [|x l] eqn:El.
  { intros [= <-] Hr. by apply elem_of_nil in Hr. }
  rewrite <- El in *. intros [= <-].
  rewrite elem_of_sorted_desc, list_elem_of_fmap. intros (m & -> & Hm).
  pose proof (get_cards_by_member_created _ _ _ _ _ E Hm) as Hc.
  assert (pd_div (completed m) (created m) =
          Fin (inject_Z (completed m) / inject_Z (created m))) as Hd.
  { unfold pd_div. by rewrite (proj2 (Z.eqb_neq _ _)) by lia. }
  cbn. rewrite Hd. split; [done|]. split; [done|]. cbn. eauto.
Qed.

(** The first row of the ranking of the sample board. *)
Lemma ranking_created_positive_witness :
  let r := default {| rk_member := []; rk_created := 0; rk_completed := 0;
                      completion_rate := NaN |} (head sample_ranking) in
  1 ≤ rk_created r ∧
  pd_div (rk_completed r) (rk_created r) =
    Fin (inject_Z (rk_completed r) / inject_Z (rk_created r)) ∧
  ∃ q, completion_rate r = Fin q.
Proof.
  apply (ranking_created_positive sample_frame (naive (jan 1)) (naive (jan 10))
           sample_ranking).
  - vm_compute. reflexivity.
  - vm_compute. apply list_elem_of_here.
Defined.

(** ** Configuration *)

Lemma is_configured_true cfg :
  is_configured cfg = true ↔
  TRELLO_API_KEY cfg ≠ ""%string ∧ TRELLO_TOKEN cfg ≠ ""%string ∧
  TRELLO_BOARD_ID cfg ≠ ""%string.
Proof.
  unfold is_configured, truthy. cbn.
  rewrite !andb_true_iff, !negb_true_iff, !bool_decide_eq_false. tauto.
Qed.

(** A variable that is not set takes the literal of the source. *)
Lemma load_config_unset defaults : load_config defaults ∅ = defaults.
Proof. by destruct defaults. Qed.

(** A variable set to the empty string leaves the attribute empty. *)
Lemma load_config_empty_key defaults (environ : gmap string string) :
  environ !! "TRELLO_API_KEY"%string = Some ""%string →
  is_configured (load_config defaults environ) = false.
Proof.
  intros H. unfold is_configured, load_config, getenv. cbn. by rewrite H.
Qed.

Section ClientFacts.
Context (json : Type) (remote : string → option json).
Context (card_ids : json → list string).


(** No run of [main] holds a request unless all three are set. *)
Lemma requests_need_configuration cfg ev :
  ev ∈ main json remote card_ids cfg → is_request ev →
  is_configured cfg = true.
Proof.
  unfold main. destruct (is_configured cfg); [done|]. cbn [negb].
  by intros ->%list_elem_of_singleton.
Qed.

(** With all three set, the run starts with the request for the board. *)
Lemma configured_run_starts_with_board_request cfg :
  is_configured cfg = true →
  head (main json remote card_ids cfg) =
    Some (HttpGet (TRELLO_API_BASE_URL ++ board_endpoint cfg "")
            (TRELLO_API_KEY cfg) (TRELLO_TOKEN cfg)).
Proof.
  intros Hc. unfold main. rewrite Hc. cbn [negb].
  unfold get_all_board_data. unfold make_request at 1.
  destruct (remote _) as [j|]; cbn [io_bind]; [|done].
  destruct (io_bind _ _) as [t [d|]]; reflexivity.
Qed.
End ClientFacts.


(** * Further properties of the code *)

(** ** Matching of list names *)

Lemma lstrip_spaces ws s :
  Forall (λ c, isspace c = true) ws → lstrip (ws ++ s) = lstrip s.
Proof. induction 1 as [|c ws Hc _ IH]; [done|]. cbn. by rewrite Hc. Qed.

Lemma lstrip_app_nonempty s t :
  lstrip s ≠ [] → lstrip (s ++ t) = lstrip s ++ t.
Proof.
  induction s as [|c s IH]; [done|]. cbn.
  destruct (isspace c); [exact IH|done].
Qed.

Lemma lstrip_all_spaces s :
  lstrip s = [] → Forall (λ c, isspace c = true) s.
Proof.
  induction s as [|c s IH]; [constructor|]. cbn.
  destruct (isspace c) eqn:E; [|done]. intros H. constructor; auto.
Qed.

Lemma Forall_rev_spaces (ws : pystr) :
  Forall (λ c, isspace c = true) ws → Forall (λ c, isspace c = true) (rev ws).
Proof.
  rewrite !Forall_forall. intros H c Hc. apply H. by rewrite <- elem_of_rev.
Qed.

Lemma strip_padding ws1 ws2 s :
  Forall (λ c, isspace c = true) ws1 →
  Forall (λ c, isspace c = true) ws2 →
  strip (ws1 ++ s ++ ws2) = strip s.
Proof.
  intros H1 H2. unfold strip. rewrite lstrip_spaces by done.
  destruct (lstrip s) as [|c s'] eqn:E.
  - apply lstrip_all_spaces in E.
    rewrite lstrip_spaces by done.
    assert (lstrip ws2 = []) as ->; [|done].
    rewrite <- (app_nil_r ws2). by rewrite lstrip_spaces.
  - rewrite lstrip_app_nonempty by (by rewrite E). rewrite E.
    rewrite rev_app_distr. by rewrite lstrip_spaces by by apply Forall_rev_spaces.
Qed.

(** Settles the comparisons of code points that the context decides. *)
Ltac decide_cmpN :=
  repeat first
    [ match goal with
      | |- context [(?a <=? ?b)%N] =>
          first [ rewrite (proj2 (N.leb_le a b)) by lia
                | rewrite (proj2 (N.leb_gt a b)) by lia ]
      end
    | match goal with
      | |- context [(?a =? ?b)%N] =>
          first [ rewrite (proj2 (N.eqb_eq a b)) by lia
                | rewrite (proj2 (N.eqb_neq a b)) by lia ]
      end ];
  cbn [andb orb negb].

Lemma isspace_letters c :
  (33 ≤ c ≤ 132 ∨ 161 ≤ c ≤ 5759)%N → isspace c = false.
Proof. intros H. unfold isspace. decide_cmpN. reflexivity. Qed.

Lemma isspace_lower_char c : isspace (lower_char c) = isspace c.
Proof.
  unfold lower_char.
  destruct (N.leb_spec 65 c), (N.leb_spec c 90); cbn [andb].
  1: by rewrite !isspace_letters by lia.
  all: destruct (N.leb_spec 192 c), (N.leb_spec c 222),
         (N.eqb_spec c 215); cbn [andb negb]; try reflexivity.
  all: by rewrite !isspace_letters by lia.
Qed.

Lemma lstrip_lower s : lstrip (lower s) = lower (lstrip s).
Proof.
  induction s as [|c s IH]; [done|]. cbn.
  rewrite isspace_lower_char. by destruct (isspace c).
Qed.

Lemma rev_lower s : rev (lower s) = lower (rev s).
Proof. unfold lower. symmetry. apply map_rev. Qed.

Lemma strip_lower s : strip (lower s) = lower (strip s).
Proof.
  unfold strip. by rewrite lstrip_lower, rev_lower, lstrip_lower, rev_lower.
Qed.

(** X1.  The test for the done list does not see the case of the letters
    nor the whitespace around the name: two names with the same lowering
    pass or fail together, and so do a name and its padded form. *)
Theorem done_list_match_insensitive s t ws1 ws2 :
  lower s = lower t →
  Forall (λ c, isspace c = true) ws1 →
  Forall (λ c, isspace c = true) ws2 →
  is_done_list (ws1 ++ s ++ ws2) = is_done_list t.
Proof.
  intros Hl H1 H2. unfold is_done_list.
  by rewrite strip_padding, <- !strip_lower, Hl by done.
Qed.

Lemma done_list_match_insensitive_witness :
  is_done_list ([9%N; 32%N] ++ (of_ascii "CONCLU" ++ [205%N] ++ of_ascii "DO")
                ++ [32%N; 10%N])
  = is_done_list (of_ascii "Conclu" ++ [237%N] ++ of_ascii "do").
Proof.
  apply (done_list_match_insensitive
           (of_ascii "CONCLU" ++ [205%N] ++ of_ascii "DO")
           (of_ascii "Conclu" ++ [237%N] ++ of_ascii "do") [9%N; 32%N]
           [32%N; 10%N]).
  - vm_compute. reflexivity.
  - repeat constructor.
  - repeat constructor.
Defined.

(** ** Archived cards and the names of lists *)

(** X2.  The frame has one row per card that is not archived, in the order
    of the cards, and no row is marked closed. *)
Theorem archived_cards_have_no_row now data :
  let df := create_cards_dataframe now data in
  row_id <$> rows df =
    card_id <$> filter (λ c, closed c = false) (td_cards data) ∧
  ∀ r, r ∈ rows df → is_closed r = false.
Proof.
  cbn zeta. unfold create_cards_dataframe. rewrite rows_pd_DataFrame.
  generalize (dict_of (td_lists data)), (dict_of (td_members data)).
  intros ld md. split.
  - unfold cards_data. induction (td_cards data) as [|c l IH]; [done|].
    rewrite filter_cons.
    change (omap (derive_card now ld md) (c :: l)) with
      (match derive_card now ld md c with
       | Some r => r :: omap (derive_card now ld md) l
       | None => omap (derive_card now ld md) l
       end).
    unfold derive_card at 1. destruct (closed c) eqn:E.
    + by rewrite decide_False.
    + rewrite decide_True by done. rewrite !fmap_cons. by f_equal.
  - intros r (c & _ & Hc)%elem_of_cards_data.
    unfold derive_card in Hc. destruct (closed c) eqn:E; [done|].
    injection Hc as <-. reflexivity.
Qed.

Lemma dict_of_lookup_last (xs1 xs2 : list (pystr * pystr)) i n :
  i ∉ xs2.*1 → dict_of (xs1 ++ (i, n) :: xs2) !! i = Some n.
Proof.
  intros Hi. unfold dict_of.
  rewrite rev_app_distr. cbn [rev]. rewrite <- app_assoc. cbn [app].
  rewrite list_to_map_app, lookup_union_r.
  - cbn. apply lookup_insert_eq.
  - apply not_elem_of_list_to_map_1. intros H. apply Hi.
    rewrite list_elem_of_fmap in H. destruct H as (p & -> & Hp).
    rewrite elem_of_rev in Hp. by apply list_elem_of_fmap_2.
Qed.

Lemma dict_of_lookup_None (xs : list (pystr * pystr)) i :
  i ∉ xs.*1 → dict_of xs !! i = None.
Proof.
  intros Hi. apply not_elem_of_list_to_map_1. intros H. apply Hi.
  rewrite list_elem_of_fmap in H. destruct H as (p & -> & Hp).
  rewrite elem_of_rev in Hp. by apply list_elem_of_fmap_2.
Qed.

(** X3.  The list name of a row is the name of the last list of the board
    that has the card's [idList]; it is ['Desconhecida'] when the card has
    no [idList] or no list of the board has it. *)
Theorem row_list_resolution now data c r :
  derive_card now (dict_of (td_lists data)) (dict_of (td_members data)) c
    = Some r →
  (∀ i n xs1 xs2, idList c = Some i →
     td_lists data = xs1 ++ (i, n) :: xs2 → i ∉ xs2.*1 → row_list r = n) ∧
  (match idList c with
   | Some i => i ∉ (td_lists data).*1
   | None => True
   end → row_list r = Desconhecida).
Proof.
  intros (_ & -> & _)%derive_card_fields. unfold list_name_of. split.
  - intros i n xs1 xs2 -> -> Hi. by rewrite dict_of_lookup_last.
  - destruct (idList c) as [i|]; [|done].
    intros Hi. by rewrite dict_of_lookup_None.
Qed.

(** Card C of the sample board is in the list "L2". *)
Lemma row_list_resolution_witness :
  (∀ i n xs1 xs2, idList card_C = Some i →
     td_lists sample_data = xs1 ++ (i, n) :: xs2 → i ∉ xs2.*1 →
     row_list row_C = n) ∧
  (match idList card_C with
   | Some i => i ∉ (td_lists sample_data).*1
   | None => True
   end → row_list row_C = Desconhecida).
Proof.
  apply (row_list_resolution sample_now sample_data card_C row_C).
  vm_compute. reflexivity.
Defined.

Example row_list_row_C : row_list row_C = of_ascii "Fazendo".
Proof. reflexivity. Qed.

(** ** Cards whose history says nothing *)

(** X4.  A card of the done list whose history has neither a ['createCard']
    nor a move into the done list (for instance a card whose history could
    not be fetched) takes its [dateLastActivity] as creation date and as
    completion date, so its completion time is 0 days. *)
Theorem silent_history_gives_zero_days now ld md c r t :
  derive_card now ld md c = Some r →
  is_done_list (row_list r) = true →
  (∀ a, a ∈ actions c → is_createCard a = false ∧ is_move_to_done a = false) →
  dateLastActivity c = Some t →
  created_date r = Some t ∧ completed_date r = Some t ∧
  ∃ q, completion_time_days r = Some q ∧ (q == 0)%Q.
Proof.
  intros Hd Hl Ha Ht.
  assert (created_date r = Some t ∧ completed_date r = Some t) as [Hcr Hco].
  { apply derive_card_fields in Hd as (_ & Hn & -> & ->).
    rewrite Hn in Hl. split.
    - destruct (card_created_date_spec c) as [(a & Hin & HP & _)|[_ ->]];
        [|done].
      destruct (Ha a Hin). congruence.
    - destruct (card_completed_date_spec _ c Hl) as [(a & Hin & HP & _)|[_ ->]];
        [|done].
      destruct (Ha a Hin). congruence. }
  split; [done|]. split; [done|].
  unfold derive_card in Hd. destruct (closed c); [done|].
  injection Hd as <-. cbn in *. rewrite Hcr, Hco.
  eexists. split; [reflexivity|]. rewrite Z.sub_diag. reflexivity.
Qed.

Lemma silent_history_gives_zero_days_witness :
  created_date row_D = Some (jan 9 + 5 * HOUR) ∧
  completed_date row_D = Some (jan 9 + 5 * HOUR) ∧
  ∃ q, completion_time_days row_D = Some q ∧ (q == 0)%Q.
Proof.
  apply (silent_history_gives_zero_days sample_now (dict_of sample_lists)
           (dict_of sample_members) card_D row_D).
  - vm_compute. reflexivity.
  - vm_compute. reflexivity.
  - intros a Ha. vm_compute in Ha. apply list_elem_of_singleton in Ha as ->.
    vm_compute. split; reflexivity.
  - vm_compute. reflexivity.
Defined.

(** ** Counts over ranges *)

Lemma get_cards_completed_count_with_columns df s e :
  columns df = card_columns →
  get_cards_completed_count df s e =
    Ok (countb (λ r, in_range (wall s) (wall e) (completed_date r)) (rows df)).
Proof.
  intros Hc. unfold get_cards_completed_count.
  rewrite mask_range_to_utc, Hc.
  rewrite bool_decide_eq_true_2 by (unfold card_columns; set_solver).
  result_simpl. by rewrite rows_select_map.
Qed.

Lemma get_cards_in_progress_count_with_columns df :
  columns df = card_columns →
  get_cards_in_progress_count df =
    Ok (countb (λ r, str_eqb (lower (strip (row_list r))) fazendo) (rows df)).
Proof.
  intros Hc. unfold get_cards_in_progress_count, getitem. rewrite Hc.
  rewrite bool_decide_eq_true_2 by (unfold card_columns; set_solver).
  result_simpl. by rewrite map_map, rows_select_map.
Qed.

Lemma countb_range_split {A} (f : A → option Z) lo mid hi l :
  lo ≤ mid + 1 → mid ≤ hi →
  (countb (λ x, in_range lo mid (f x)) l +
   countb (λ x, in_range (mid + 1) hi (f x)) l)%nat =
  countb (λ x, in_range lo hi (f x)) l.
Proof.
  intros H1 H2. induction l as [|x l IH]; [done|].
  rewrite !countb_cons, <- IH.
  destruct (f x) as [t|]; cbn [in_range]; [|lia]. bool_lia.
Qed.

(** X5.  On a board with an open card, the counts of created and of
    completed cards add up over two adjacent ranges: the count over
    [[s, e]] is the count over [[s, m]] plus the count over the range that
    starts one microsecond after [m]. *)
Theorem counts_add_over_adjacent_ranges now data s m m' e :
  let df := create_cards_dataframe now data in
  rows df ≠ [] →
  wall s ≤ wall m → wall m ≤ wall e → wall m' = wall m + 1 →
  (∃ a b n, get_cards_created_count df s m = Ok a ∧
            get_cards_created_count df m' e = Ok b ∧
            get_cards_created_count df s e = Ok n ∧ n = (a + b)%nat) ∧
  (∃ a b n, get_cards_completed_count df s m = Ok a ∧
            get_cards_completed_count df m' e = Ok b ∧
            get_cards_completed_count df s e = Ok n ∧ n = (a + b)%nat).
Proof.
  cbn zeta. intros Hne%frame_columns H1 H2 Hm. split.
  - rewrite !get_cards_created_count_with_columns by done.
    eexists _, _, _. repeat split. rewrite Hm.
    symmetry. apply countb_range_split; lia.
  - rewrite !get_cards_completed_count_with_columns by done.
    eexists _, _, _. repeat split. rewrite Hm.
    symmetry. apply countb_range_split; lia.
Qed.

Lemma counts_add_over_adjacent_ranges_witness :
  (∃ a b n,
     get_cards_created_count sample_frame (naive (jan 1)) (naive (jan 2)) = Ok a ∧
     get_cards_created_count sample_frame (utc (jan 2 + 1)) (naive (jan 10)) = Ok b ∧
     get_cards_created_count sample_frame (naive (jan 1)) (naive (jan 10)) = Ok n ∧
     n = (a + b)%nat) ∧
  (∃ a b n,
     get_cards_completed_count sample_frame (naive (jan 1)) (naive (jan 2)) = Ok a ∧
     get_cards_completed_count sample_frame (utc (jan 2 + 1)) (naive (jan 10)) = Ok b ∧
     get_cards_completed_count sample_frame (naive (jan 1)) (naive (jan 10)) = Ok n ∧
     n = (a + b)%nat).
Proof.
  apply (counts_add_over_adjacent_ranges sample_now sample_data
           (naive (jan 1)) (naive (jan 2)) (utc (jan 2 + 1)) (naive (jan 10))).
  - vm_compute. discriminate.
  - vm_compute. discriminate.
  - vm_compute. discriminate.
  - vm_compute. reflexivity.
Defined.

Lemma countb_disjoint {A} (f g : A → bool) l :
  (∀ x, x ∈ l → f x = true → g x = false) →
  (countb f l + countb g l ≤ length l)%nat.
Proof.
  induction l as [|x l IH]; intros H; [done|].
  rewrite !countb_cons. cbn [length].
  assert (countb f l + countb g l ≤ length l)%nat.
  { apply IH. intros y Hy. apply H. by right. }
  specialize (H x (list_elem_of_here _ _)).
  destruct (f x); [rewrite H by done|destruct (g x)]; lia.
Qed.

Lemma fazendo_not_done n :
  str_eqb (lower (strip n)) fazendo = true → is_done_list n = false.
Proof.
  intros H%str_eqb_eq. unfold is_done_list. rewrite H. reflexivity.
Qed.

(** X6.  No card is counted both as in progress and as completed: a row of
    the list ['fazendo'] has no completion date, so the count of the cards
    in progress and the count of the cards completed in any range together
    never exceed the number of rows. *)
Theorem in_progress_and_completed_are_disjoint now data s e n k :
  let df := create_cards_dataframe now data in
  get_cards_in_progress_count df = Ok n →
  get_cards_completed_count df s e = Ok k →
  (n + k ≤ length (rows df))%nat ∧
  ∀ r, r ∈ rows df →
       lower (strip (row_list r)) = fazendo → completed_date r = None.
Proof.
  cbn zeta. intros Hn Hk.
  assert (Hrow : ∀ r, r ∈ rows (create_cards_dataframe now data) →
            str_eqb (lower (strip (row_list r))) fazendo = true →
            completed_date r = None).
  { unfold create_cards_dataframe. rewrite rows_pd_DataFrame.
    intros r (c & _ & Hc)%elem_of_cards_data Hf.
    apply derive_card_fields in Hc as (_ & Hl & _ & ->).
    unfold card_completed_date. rewrite <- Hl.
    by rewrite fazendo_not_done. }
  split; [|intros r Hr Hf; apply Hrow; [done|by apply str_eqb_eq]].
  assert (rows (create_cards_dataframe now data) ≠ []) as Hc%frame_columns.
  { intros E. unfold create_cards_dataframe in *.
    rewrite rows_pd_DataFrame in E. rewrite E in Hn. discriminate Hn. }
  rewrite get_cards_in_progress_count_with_columns in Hn by done.
  rewrite get_cards_completed_count_with_columns in Hk by done.
  injection Hn as <-. injection Hk as <-.
  apply countb_disjoint. intros r Hr Hf. by rewrite (Hrow r Hr Hf).
Qed.

Lemma in_progress_and_completed_are_disjoint_witness :
  (2 + 2 ≤ length (rows sample_frame))%nat ∧
  ∀ r, r ∈ rows sample_frame →
       lower (strip (row_list r)) = fazendo → completed_date r = None.
Proof.
  apply (in_progress_and_completed_are_disjoint sample_now sample_data
           (naive (jan 1)) (naive (jan 10)) 2 2).
  - vm_compute. reflexivity.
  - vm_compute. reflexivity.
Defined.

(** ** The shape of the timeline *)

(** X7.  On a board with an open card the timeline never fails.  For a
    range that ends before it starts it is empty; otherwise it has one row
    per whole day of the range plus one, the row [i] being [i] days after
    the start, on the [i]-th calendar day after the day of the start, with
    the numbers of rows of the frame created and completed on that calendar
    day (whether inside the range or not). *)
Theorem timeline_shape now data s e :
  let df := create_cards_dataframe now data in
  rows df ≠ [] →
  ∃ tl, get_cards_timeline df s e = Ok tl ∧
    (wall e < wall s → tl = []) ∧
    (wall s ≤ wall e →
       Z.of_nat (length tl) = (wall e - wall s) / DAY + 1 ∧
       ∀ i r, tl !! i = Some r →
         t_date r = wall s + Z.of_nat i * DAY ∧
         date_of (t_date r) = date_of (wall s) + Z.of_nat i ∧
         t_created r =
           count_on_day (created_date <$> rows df) (date_of (t_date r)) ∧
         t_completed r =
           count_on_day (completed_date <$> rows df) (date_of (t_date r))).
Proof.
  cbn zeta. intros Hc%frame_columns.
  destruct (Z.lt_ge_cases (wall e) (wall s)) as [Hlt|Hle].
  - exists []. split; [|split; [done|lia]].
    rewrite get_cards_timeline_with_columns by done.
    by rewrite date_range_backwards.
  - destruct (timeline_rows_with_columns _ s e Hc Hle) as (tl & Htl & Hlen & Hr).
    exists tl. split; [done|]. split; [lia|]. by intros _.
Qed.

Lemma timeline_shape_witness :
  ∃ tl, get_cards_timeline sample_frame (naive (jan 1 + HOUR))
          (naive (jan 4)) = Ok tl ∧
    (wall (naive (jan 4)) < wall (naive (jan 1 + HOUR)) → tl = []) ∧
    (wall (naive (jan 1 + HOUR)) ≤ wall (naive (jan 4)) →
       Z.of_nat (length tl) =
         (wall (naive (jan 4)) - wall (naive (jan 1 + HOUR))) / DAY + 1 ∧
       ∀ i r, tl !! i = Some r →
         t_date r = wall (naive (jan 1 + HOUR)) + Z.of_nat i * DAY ∧
         date_of (t_date r) = date_of (wall (naive (jan 1 + HOUR))) + Z.of_nat i ∧
         t_created r =
           count_on_day (created_date <$> rows sample_frame) (date_of (t_date r)) ∧
         t_completed r =
           count_on_day (completed_date <$> rows sample_frame) (date_of (t_date r))).
Proof.
  apply (timeline_shape sample_now sample_data (naive (jan 1 + HOUR))
           (naive (jan 4))).
  vm_compute. discriminate.
Defined.

Example timeline_sample_length :
  ∃ tl, get_cards_timeline sample_frame (naive (jan 1 + HOUR)) (naive (jan 4))
          = Ok tl ∧ length tl = 3%nat.
Proof. eexists. split; [vm_compute; reflexivity|reflexivity]. Qed.

(** ** The range of the dashboard *)

Lemma day_sum_aligned (col : list (option Z)) s e :
  s mod DAY = 0 →
  (e + 1) mod DAY = 0 →
  Zsum (map (λ d, count_on_day col (date_of d)) (date_range s e)) =
  Z.of_nat (countb (in_range s e) col).
Proof.
  intros Hs He. pose proof DAY_pos as HD.
  destruct (Z.lt_ge_cases e s) as [Hlt|Hle].
  - rewrite date_range_backwards by done. cbn.
    rewrite countb_false; [done|]. intros [t|]; [|done]. cbn. bool_lia.
  - rewrite date_range_forwards by done.
    apply Z.mod_divide in Hs as [a Ha]; [|lia].
    apply Z.mod_divide in He as [b Hb]; [|lia].
    assert ((e - s) / DAY = b - a - 1) as ->.
    { replace (e - s) with ((b - a - 1) * DAY + (DAY - 1)) by lia.
      rewrite Z.div_add_l by lia. rewrite Z.div_small; lia. }
    assert (a < b) by nia.
    rewrite map_map.
    erewrite map_ext; [|intros k; cbn; rewrite date_of_add_days; reflexivity].
    assert (date_of s = a) as ->.
    { unfold date_of. rewrite Ha. apply Z.div_mul. lia. }
    rewrite count_days_sum. f_equal. apply countb_ext. intros [t|]; [|done].
    cbn [in_range].
    replace s with (DAY * a) by lia. replace e with (DAY * b - 1) by lia.
    rewrite range_as_days by done. unfold date_of. do 2 f_equal. lia.
Qed.

Lemma timeline_completed_sum df s e :
  wall s mod DAY = 0 →
  (wall e + 1) mod DAY = 0 →
  Zsum (t_completed <$> (timeline_row_of df <$> date_range (wall s) (wall e))) =
  Z.of_nat (countb (λ r, in_range (wall s) (wall e) (completed_date r)) (rows df)).
Proof.
  intros Hs He. rewrite <- list_fmap_compose.
  rewrite <- (countb_fmap (in_range (wall s) (wall e)) completed_date).
  rewrite <- day_sum_aligned by done. reflexivity.
Qed.

Lemma selected_range_eq now1 now2 p :
  selected_range now1 now2 p =
    (combine (fst (selected_dates now1 now2 p)) time_min,
     combine (snd (selected_dates now1 now2 p)) time_max).
Proof. unfold selected_range. by destruct (selected_dates now1 now2 p). Qed.

Lemma combine_min_aligned d : wall (combine d time_min) mod DAY = 0.
Proof.
  cbn. unfold time_min. rewrite Z.add_0_r. apply Z.mod_mul.
  pose proof DAY_pos. lia.
Qed.

Lemma combine_max_aligned d : (wall (combine d time_max) + 1) mod DAY = 0.
Proof.
  cbn. unfold time_max.
  replace (date_of d * DAY + (DAY - 1) + 1) with ((date_of d + 1) * DAY) by lia.
  apply Z.mod_mul. pose proof DAY_pos. lia.
Qed.

Lemma combine_span d1 d2 :
  date_of d1 ≤ date_of d2 →
  wall (combine d1 time_min) ≤ wall (combine d2 time_max) ∧
  (wall (combine d2 time_max) - wall (combine d1 time_min)) / DAY =
    date_of d2 - date_of d1.
Proof.
  intros H. pose proof DAY_pos as HD. cbn. unfold time_min, time_max.
  split; [nia|].
  replace (date_of d2 * DAY + (DAY - 1) - (date_of d1 * DAY + 0))
    with ((date_of d2 - date_of d1) * DAY + (DAY - 1)) by lia.
  rewrite Z.div_add_l by lia. rewrite Z.div_small; lia.
Qed.

(** X8.  For the range [main] builds from the period selector, whatever
    the period and the clock, and a board with an open card: the timeline
    and the two counts are computed, the [created] column of the timeline
    sums to the count of created cards and the [completed] column to the
    count of completed cards, and the timeline has one row per calendar day
    from the start date to the end date; for one of the four fixed periods
    read within one day that is the number of days of the period plus one. *)
Theorem dashboard_range_conservation now data now1 now2 p :
  let df := create_cards_dataframe now data in
  let s := fst (selected_range now1 now2 p) in
  let e := snd (selected_range now1 now2 p) in
  let start_date := fst (selected_dates now1 now2 p) in
  let end_date := snd (selected_dates now1 now2 p) in
  rows df ≠ [] →
  ∃ tl n k,
    get_cards_timeline df s e = Ok tl ∧
    get_cards_created_count df s e = Ok n ∧
    get_cards_completed_count df s e = Ok k ∧
    Zsum (t_created <$> tl) = Z.of_nat n ∧
    Zsum (t_completed <$> tl) = Z.of_nat k ∧
    (date_of start_date ≤ date_of end_date →
       Z.of_nat (length tl) = date_of end_date - date_of start_date + 1) ∧
    (∀ days, days_map p = Some days → date_of now1 = date_of now2 →
       Z.of_nat (length tl) = days + 1).
Proof.
  cbn zeta. intros Hc%frame_columns. rewrite selected_range_eq. cbn [fst snd].
  set (sd := fst (selected_dates now1 now2 p)).
  set (ed := snd (selected_dates now1 now2 p)).
  pose proof (combine_min_aligned sd) as Hs.
  pose proof (combine_max_aligned ed) as He.
  assert (Hlen : date_of sd ≤ date_of ed →
    Z.of_nat (length (timeline_row_of (create_cards_dataframe now data) <$>
      date_range (wall (combine sd time_min)) (wall (combine ed time_max))))
    = date_of ed - date_of sd + 1).
  { intros Hd. destruct (combine_span sd ed Hd) as [Hle Hdiv].
    by rewrite length_fmap, length_date_range, Hdiv. }
  eexists _, _, _. split; [by apply get_cards_timeline_with_columns|].
  split; [by apply get_cards_created_count_with_columns|].
  split; [by apply get_cards_completed_count_with_columns|].
  split; [by apply timeline_created_sum|].
  split; [by apply timeline_completed_sum|].
  split; [exact Hlen|].
  intros days Hp Hnow.
  assert (sd = now1 - days * DAY ∧ ed = now2) as [Hsd Hed].
  { unfold sd, ed, selected_dates. destruct p; cbn in Hp |- *;
      try discriminate; injection Hp as <-; done. }
  assert (0 ≤ days) by (destruct p; cbn in Hp; try discriminate;
                         injection Hp as <-; lia).
  assert (date_of sd = date_of now2 - days) as Hds.
  { rewrite Hsd, <- Hnow.
    replace (now1 - days * DAY) with (now1 + (- days) * DAY) by lia.
    rewrite date_of_add_days. lia. }
  rewrite Hlen by (rewrite Hds, Hed; lia). rewrite Hds, Hed. lia.
Qed.

(** The last month, read at 15:00 of Jan 20, over the sample board. *)
Lemma dashboard_range_conservation_witness :
  let now1 := jan 20 + 15 * HOUR in
  let df := sample_frame in
  let s := fst (selected_range now1 now1 Ultimo_mes) in
  let e := snd (selected_range now1 now1 Ultimo_mes) in
  let start_date := fst (selected_dates now1 now1 Ultimo_mes) in
  let end_date := snd (selected_dates now1 now1 Ultimo_mes) in
  ∃ tl n k,
    get_cards_timeline df s e = Ok tl ∧
    get_cards_created_count df s e = Ok n ∧
    get_cards_completed_count df s e = Ok k ∧
    Zsum (t_created <$> tl) = Z.of_nat n ∧
    Zsum (t_completed <$> tl) = Z.of_nat k ∧
    (date_of start_date ≤ date_of end_date →
       Z.of_nat (length tl) = date_of end_date - date_of start_date + 1) ∧
    (∀ days, days_map Ultimo_mes = Some days → date_of now1 = date_of now1 →
       Z.of_nat (length tl) = days + 1).
Proof.
  apply (dashboard_range_conservation sample_now sample_data
           (jan 20 + 15 * HOUR) (jan 20 + 15 * HOUR) Ultimo_mes).
  vm_compute. discriminate.
Defined.

(** ** Sorting by a total order *)

Section SortOrder.
Context {A : Type} (leb : A → A → bool).
Hypothesis leb_total : ∀ x y, leb x y = true ∨ leb y x = true.
Hypothesis leb_trans : ∀ x y z, leb x y = true → leb y z = true → leb x z = true.

Lemma insert_by_StronglySorted x l :
  StronglySorted (leb_rel leb) l →
  StronglySorted (leb_rel leb) (insert_by leb x l).
Proof.
  induction 1 as [|y l Hl IH Hy]; simpl.
  - repeat constructor.
  - destruct (leb x y) eqn:Hxy.
    + constructor; [by constructor|].
      constructor; [done|].
      eapply Forall_impl; [exact Hy|]. intros z Hz. by eapply leb_trans.
    + constructor; [done|].
      rewrite insert_by_Permutation. constructor; [|done].
      destruct (leb_total x y) as [H|H]; [congruence|done].
Qed.

Lemma sort_by_StronglySorted l : StronglySorted (leb_rel leb) (sort_by leb l).
Proof.
  induction l as [|x l IH]; simpl; [constructor|].
  by apply insert_by_StronglySorted.
Qed.
End SortOrder.

Lemma StronglySorted_weaken {A} (R1 R2 : relation A) l :
  (∀ x y, R1 x y → R2 x y) → StronglySorted R1 l → StronglySorted R2 l.
Proof.
  intros H. induction 1 as [|x l Hl IH Hx]; constructor; [done|].
  eapply Forall_impl; [exact Hx|]. auto.
Qed.

Lemma sorted_desc_StronglySorted {A} (key : A → Z) l :
  StronglySorted (λ x y, key y ≤ key x) (sorted_desc key l).
Proof.
  eapply StronglySorted_weaken;
    [|apply (sort_by_StronglySorted (λ x y, key y <=? key x))].
  - intros x y H. unfold leb_rel in H. lia.
  - intros x y. lia.
  - intros x y z. lia.
Qed.

Lemma Zsum_cons x l : Zsum (x :: l) = x + Zsum l.
Proof. done. Qed.

Lemma Zsum_Permutation l1 l2 : l1 ≡ₚ l2 → Zsum l1 = Zsum l2.
Proof.
  unfold Zsum. induction 1; cbn; lia.
Qed.

Lemma Zsum_fmap_Permutation {A} (f : A → Z) l1 l2 :
  l1 ≡ₚ l2 → Zsum (f <$> l1) = Zsum (f <$> l2).
Proof. intros H. apply Zsum_Permutation. by rewrite H. Qed.

(** ** The table per member *)

Lemma groupby_sum_Permutation l :
  groupby_sum l ≡ₚ row_of_group <$> map_to_list (foldl group_add ∅ l).
Proof. unfold groupby_sum. apply sort_by_Permutation. Qed.

Lemma group_add_completed (m : gmap pystr (Z * Z)) (r : member_row) :
  0 ≤ completed r ≤ created r →
  map_Forall (λ _ v, 0 ≤ snd v ≤ fst v) m →
  map_Forall (λ _ v, 0 ≤ snd v ≤ fst v) (group_add m r).
Proof.
  intros Hr Hm. unfold group_add. apply map_Forall_insert_2; [|done].
  destruct (m !! member r) as [v|] eqn:E; cbn; [|lia].
  specialize (Hm _ _ E). cbn in Hm. lia.
Qed.

Lemma foldl_group_add_completed (l : list member_row) (m : gmap pystr (Z * Z)) :
  (∀ r, r ∈ l → 0 ≤ completed r ≤ created r) →
  map_Forall (λ _ v, 0 ≤ snd v ≤ fst v) m →
  map_Forall (λ _ v, 0 ≤ snd v ≤ fst v) (foldl group_add m l).
Proof.
  revert m. induction l as [|r l IH]; intros m Hl Hm; [done|].
  cbn. apply IH.
  - intros x Hx. apply Hl. by right.
  - apply group_add_completed; [|done]. apply Hl. left.
Qed.

Lemma group_add_totals (m : gmap pystr (Z * Z)) (r : member_row) :
  Zsum (created <$> (row_of_group <$> map_to_list (group_add m r))) =
    Zsum (created <$> (row_of_group <$> map_to_list m)) + created r ∧
  Zsum (completed <$> (row_of_group <$> map_to_list (group_add m r))) =
    Zsum (completed <$> (row_of_group <$> map_to_list m)) + completed r.
Proof.
  unfold group_add. destruct (m !! member r) as [v|] eqn:E; cbn [default].
  - rewrite <- insert_delete_eq.
    assert (delete (member r) m !! member r = None) as Hd
      by apply lookup_delete_eq.
    pose proof (map_to_list_insert _ _
      (fst v + created r, snd v + completed r) Hd) as H1.
    pose proof (map_to_list_delete _ _ _ E) as H2.
    split.
    + rewrite (Zsum_fmap_Permutation _ _ _ (fmap_Permutation row_of_group _ _ H1)).
      rewrite <- (Zsum_fmap_Permutation _ _ _ (fmap_Permutation row_of_group _ _ H2)).
      rewrite !fmap_cons, !Zsum_cons. cbn [row_of_group created completed fst snd]. lia.
    + rewrite (Zsum_fmap_Permutation _ _ _ (fmap_Permutation row_of_group _ _ H1)).
      rewrite <- (Zsum_fmap_Permutation _ _ _ (fmap_Permutation row_of_group _ _ H2)).
      rewrite !fmap_cons, !Zsum_cons. cbn [row_of_group created completed fst snd]. lia.
  - pose proof (map_to_list_insert _ _ (0 + created r, 0 + completed r) E) as H1.
    split.
    + rewrite (Zsum_fmap_Permutation _ _ _ (fmap_Permutation row_of_group _ _ H1)).
      rewrite !fmap_cons, !Zsum_cons. cbn [row_of_group created completed fst snd]. lia.
    + rewrite (Zsum_fmap_Permutation _ _ _ (fmap_Permutation row_of_group _ _ H1)).
      rewrite !fmap_cons, !Zsum_cons. cbn [row_of_group created completed fst snd]. lia.
Qed.

Lemma foldl_group_add_totals (l : list member_row) (m : gmap pystr (Z * Z)) :
  Zsum (created <$> (row_of_group <$> map_to_list (foldl group_add m l))) =
    Zsum (created <$> (row_of_group <$> map_to_list m)) + Zsum (created <$> l) ∧
  Zsum (completed <$> (row_of_group <$> map_to_list (foldl group_add m l))) =
    Zsum (completed <$> (row_of_group <$> map_to_list m)) + Zsum (completed <$> l).
Proof.
  revert m. induction l as [|r l IH]; intros m.
  - cbn [foldl]. rewrite !fmap_nil. unfold Zsum at 3 6. cbn [foldr]. lia.
  - cbn [foldl]. destruct (IH (group_add m r)) as [-> ->].
    destruct (group_add_totals m r) as [-> ->].
    rewrite !fmap_cons, !Zsum_cons. lia.
Qed.

Lemma groupby_sum_totals l :
  Zsum (created <$> groupby_sum l) = Zsum (created <$> l) ∧
  Zsum (completed <$> groupby_sum l) = Zsum (completed <$> l).
Proof.
  rewrite !(Zsum_fmap_Permutation _ _ _ (groupby_sum_Permutation l)).
  destruct (foldl_group_add_totals l ∅) as [-> ->].
  rewrite map_to_list_empty. cbn. lia.
Qed.

Lemma groupby_sum_NoDup l : NoDup (member <$> groupby_sum l).
Proof.
  rewrite groupby_sum_Permutation, <- list_fmap_compose.
  apply (NoDup_fst_map_to_list (foldl group_add ∅ l)).
Qed.

Lemma explode_members_completed r x :
  x ∈ explode_members r →
  created x = 1 ∧ completed x = completed_flag r ∧ 0 ≤ completed x ≤ 1.
Proof.
  assert (0 ≤ completed_flag r ≤ 1) by (unfold completed_flag; case_bool_decide; lia).
  unfold explode_members. destruct (members r) as [|m ms].
  - by intros ->%list_elem_of_singleton.
  - rewrite list_elem_of_In, in_map_iff. by intros (? & <- & _).
Qed.

Lemma flat_map_explode_totals hits :
  Zsum (created <$> flat_map explode_members hits) = Zsum (appearances <$> hits) ∧
  Zsum (completed <$> flat_map explode_members hits) =
    Zsum ((λ r, appearances r * completed_flag r) <$> hits).
Proof.
  induction hits as [|r hits [IH1 IH2]]; [done|].
  cbn [flat_map]. rewrite !fmap_app, !Zsum_app, IH1, IH2. rewrite !fmap_cons.
  assert (Zsum (created <$> explode_members r) = appearances r ∧
          Zsum (completed <$> explode_members r) =
            appearances r * completed_flag r) as [-> ->]; [|done].
  unfold appearances.
  assert (∀ x, x ∈ explode_members r →
            created x = 1 ∧ completed x = completed_flag r) as H.
  { intros x Hx. destruct (explode_members_completed r x Hx) as (? & ? & _). done. }
  induction (explode_members r) as [|x l IHl]; [cbn; lia|].
  destruct (H x (list_elem_of_here _ _)) as [Hc Hd].
  destruct IHl as [I1 I2]; [intros y Hy; apply H; by right|].
  rewrite !fmap_cons. cbn [length]. unfold Zsum in *. cbn [foldr].
  rewrite I1, I2, Hc, Hd. lia.
Qed.

Lemma get_cards_by_member_eq df s e dfm :
  get_cards_by_member df s e = Ok dfm →
  let hits := filter (λ r, in_range (wall s) (wall e) (created_date r) = true)
                (rows df) in
  dfm ≡ₚ groupby_sum (flat_map explode_members hits) ∧
  dfm = sorted_desc created (groupby_sum (flat_map explode_members hits)).
Proof.
  unfold get_cards_by_member. rewrite filter_by_date_range_eq.
  destruct (bool_decide _); [|done]. result_simpl. rewrite rows_select_map.
  cbn zeta. destruct (flat_map _ _) as [|x l] eqn:E.
  - intros [= <-]. by vm_compute.
  - intros [= <-]. split; [|done]. apply sort_by_Permutation.
Qed.

Lemma group_add_lookup (m : gmap pystr (Z * Z)) (r : member_row) k :
  group_add m r !! k =
    if decide (member r = k)
    then Some (fst (default (0, 0) (m !! k)) + created r,
               snd (default (0, 0) (m !! k)) + completed r)
    else m !! k.
Proof.
  unfold group_add. rewrite lookup_insert.
  by destruct (decide (member r = k)) as [->|].
Qed.

(** The group of a member after a list of rows: the sums of the rows of
    that member, added to what the group held. *)
Lemma foldl_group_add_lookup (l : list member_row) (m : gmap pystr (Z * Z)) k :
  let m' := foldl group_add m l in
  let own := filter (λ x, member x = k) l in
  default (0, 0) (m' !! k) =
    (fst (default (0, 0) (m !! k)) + Zsum (created <$> own),
     snd (default (0, 0) (m !! k)) + Zsum (completed <$> own)) ∧
  (is_Some (m !! k) ∨ k ∈ member <$> l → is_Some (m' !! k)).
Proof.
  revert m. induction l as [|r l IH]; intros m; cbn zeta.
  - cbn [foldl]. rewrite filter_nil, !fmap_nil. split.
    + destruct (default (0, 0) (m !! k)) as [c d]. cbn. f_equal; lia.
    + intros [H|H]; [done|]. by apply elem_of_nil in H.
  - cbn [foldl]. destruct (IH (group_add m r)) as [-> Hs].
    rewrite group_add_lookup, filter_cons.
    destruct (decide (member r = k)) as [Hk|Hk].
    + split.
      * cbn [default from_option id fst snd]. rewrite !fmap_cons, !Zsum_cons.
        f_equal; lia.
      * intros _. apply Hs. left. rewrite group_add_lookup.
        rewrite decide_True by done. eauto.
    + split; [done|].
      intros [H|H]; apply Hs.
      * left. rewrite group_add_lookup. by rewrite decide_False.
      * rewrite fmap_cons in H. apply elem_of_cons in H as [H|H]; [congruence|].
        by right.
Qed.

Lemma Zsum_created_ones (l : list member_row) :
  (∀ x, x ∈ l → created x = 1) → Zsum (created <$> l) = Z.of_nat (length l).
Proof.
  induction l as [|x l IH]; intros H; [done|].
  rewrite fmap_cons, Zsum_cons.
  rewrite IH by (intros y Hy; apply H; by right).
  rewrite (H x) by left. cbn [length]. lia.
Qed.

(** X9.  The table per member has exactly one row per member name that
    occurs among the cards created in the range (['Sem atribuição']
    standing for a card without member): every such name has a row, no name
    has two, the [created] of a row is the number of appearances of its
    member, its [completed] the number of those appearances whose card has
    a completion date, so that 0 ≤ [completed] ≤ [created]; the rows are
    sorted by [created] in descending order. *)
Theorem by_member_rows df s e dfm :
  get_cards_by_member df s e = Ok dfm →
  let member_cards :=
    flat_map explode_members
      (filter (λ r, in_range (wall s) (wall e) (created_date r) = true)
         (rows df)) in
  NoDup (member <$> dfm) ∧
  StronglySorted (λ x y, created y ≤ created x) dfm ∧
  (∀ r, r ∈ dfm →
     let own := filter (λ x, member x = member r) member_cards in
     created r = Z.of_nat (length own) ∧
     completed r = Zsum (completed <$> own) ∧
     0 ≤ completed r ≤ created r) ∧
  (∀ x, x ∈ member_cards → member x ∈ member <$> dfm).
Proof.
  intros [Hp Heq]%get_cards_by_member_eq. cbn zeta in *.
  set (mc := flat_map explode_members
               (filter (λ r, in_range (wall s) (wall e) (created_date r) = true)
                  (rows df))) in *.
  assert (Hmc : ∀ x, x ∈ mc →
            created x = 1 ∧ 0 ≤ completed x ≤ 1).
  { intros x. unfold mc. rewrite list_elem_of_In, in_flat_map.
    intros (r0 & _ & Hx). rewrite <- list_elem_of_In in Hx.
    destruct (explode_members_completed r0 x Hx) as (? & ? & ?). done. }
  split; [|split; [|split]].
  - rewrite Hp. apply groupby_sum_NoDup.
  - rewrite Heq. apply sorted_desc_StronglySorted.
  - intros r. rewrite Hp, groupby_sum_Permutation, list_elem_of_fmap.
    intros ([k v] & -> & Hkv%elem_of_map_to_list). cbn [row_of_group member
      created completed fst snd].
    destruct (foldl_group_add_lookup mc ∅ k) as [Hl _]. rewrite Hkv in Hl.
    rewrite lookup_empty in Hl. cbn [default from_option id fst snd] in Hl.
    subst v. cbn [fst snd]. rewrite !Z.add_0_l.
    assert (∀ x, x ∈ filter (λ x, member x = k) mc →
              created x = 1 ∧ 0 ≤ completed x ≤ 1) as Hown.
    { intros x [_ Hx]%list_elem_of_filter. by apply Hmc. }
    split; [apply Zsum_created_ones; intros x Hx; by apply Hown|].
    split; [done|].
    revert Hown. generalize (filter (λ x, member x = k) mc). intros own Hown.
    rewrite Zsum_created_ones by (intros x Hx; by apply Hown).
    induction own as [|x own IH]; [done|].
    rewrite fmap_cons, Zsum_cons. cbn [length].
    destruct (Hown x) as [_ Hx]; [left|].
    assert (0 ≤ Zsum (completed <$> own) ≤ Z.of_nat (length own)) as Hrec.
    { apply IH. intros y Hy. apply Hown. by right. }
    lia.
  - intros x Hx. rewrite Hp, groupby_sum_Permutation.
    destruct (foldl_group_add_lookup mc ∅ (member x)) as [_ Hs].
    destruct Hs as [v Hv]; [right; by apply list_elem_of_fmap_2|].
    apply elem_of_map_to_list in Hv.
    apply (list_elem_of_fmap_2 row_of_group) in Hv.
    by apply (list_elem_of_fmap_2 member) in Hv.
Qed.

Lemma by_member_rows_witness :
  let dfm := sorted_desc created
               (groupby_sum (flat_map explode_members (rows sample_frame))) in
  let member_cards :=
    flat_map explode_members
      (filter (λ r, in_range (wall (naive (jan 1))) (wall (naive (jan 10)))
                      (created_date r) = true)
         (rows sample_frame)) in
  NoDup (member <$> dfm) ∧
  StronglySorted (λ x y, created y ≤ created x) dfm ∧
  (∀ r, r ∈ dfm →
     let own := filter (λ x, member x = member r) member_cards in
     created r = Z.of_nat (length own) ∧
     completed r = Zsum (completed <$> own) ∧
     0 ≤ completed r ≤ created r) ∧
  (∀ x, x ∈ member_cards → member x ∈ member <$> dfm).
Proof.
  apply (by_member_rows sample_frame (naive (jan 1)) (naive (jan 10))).
  vm_compute. reflexivity.
Defined.

(** X10.  The table per member accounts for every card created in the
    range: its [created] column sums to the number of appearances of these
    cards (one per assigned member, one for a card without member) and its
    [completed] column to the appearances of those that have a completion
    date. *)
Theorem by_member_totals df s e dfm :
  get_cards_by_member df s e = Ok dfm →
  let hits := filter (λ r, in_range (wall s) (wall e) (created_date r) = true)
                (rows df) in
  Zsum (created <$> dfm) = Zsum (appearances <$> hits) ∧
  Zsum (completed <$> dfm) =
    Zsum ((λ r, appearances r * completed_flag r) <$> hits).
Proof.
  intros [Hp _]%get_cards_by_member_eq. cbn zeta.
  rewrite !(Zsum_fmap_Permutation _ _ _ Hp).
  destruct (groupby_sum_totals (flat_map explode_members
    (filter (λ r, in_range (wall s) (wall e) (created_date r) = true)
       (rows df)))) as [-> ->].
  apply flat_map_explode_totals.
Qed.

Lemma by_member_totals_witness :
  let dfm := sorted_desc created
               (groupby_sum (flat_map explode_members (rows sample_frame))) in
  let hits := filter (λ r, in_range (wall (naive (jan 1))) (wall (naive (jan 10)))
                             (created_date r) = true) (rows sample_frame) in
  Zsum (created <$> dfm) = Zsum (appearances <$> hits) ∧
  Zsum (completed <$> dfm) =
    Zsum ((λ r, appearances r * completed_flag r) <$> hits).
Proof.
  apply (by_member_totals sample_frame (naive (jan 1)) (naive (jan 10))).
  vm_compute. reflexivity.
Defined.

(** ** The ranking *)

Lemma round_half_even_bounds q lo hi :
  (inject_Z lo <= q)%Q → (q <= inject_Z hi)%Q →
  lo ≤ round_half_even q ≤ hi.
Proof.
  intros Hlo Hhi. unfold round_half_even.
  assert (lo ≤ Qfloor q) as H1.
  { rewrite <- (Qfloor_Z lo). by apply Qfloor_resp_le. }
  assert (Qfloor q ≤ hi) as H2.
  { rewrite <- (Qfloor_Z hi). by apply Qfloor_resp_le. }
  destruct (Qcompare (q - inject_Z (Qfloor q)) (1 # 2)) eqn:E; [|lia|].
  - destruct (Z.even (Qfloor q)); [lia|].
    assert (Qfloor q ≠ hi); [|lia]. intros Heq.
    apply Qeq_alt in E. rewrite Heq in E.
    assert (q - inject_Z hi <= 0)%Q as Hle.
    { rewrite <- (Qplus_opp_r (inject_Z hi)). by apply Qplus_le_l. }
    rewrite E in Hle. by apply Qle_bool_iff in Hle.
  - assert (Qfloor q ≠ hi); [|lia]. intros Heq.
    apply Qgt_alt in E. rewrite Heq in E.
    assert (q - inject_Z hi <= 0)%Q as Hle.
    { rewrite <- (Qplus_opp_r (inject_Z hi)). by apply Qplus_le_l. }
    assert (1 # 2 < 0)%Q as Habs by (eapply Qlt_le_trans; eauto).
    by apply Qlt_alt in Habs.
Qed.

Lemma ulp_exponent_nonpos n d :
  0 < n → n ≤ 2 ^ 52 * Z.pos d → ulp_exponent n d ≤ 0.
Proof.
  intros Hn Hle. unfold ulp_exponent.
  assert (Z.log2 n ≤ 52 + Z.log2 (Z.pos d)) as Hlog.
  { rewrite <- (Z.log2_mul_pow2 (Z.pos d) 52) by lia.
    apply Z.log2_le_mono. lia. }
  destruct (Qle_bool _ _); lia.
Qed.

Lemma Qscale_nonpos q e :
  e ≤ 0 → Qscale q e = (q * inject_Z (2 ^ (- e)))%Q.
Proof. intros H. unfold Qscale. by rewrite (proj2 (Z.leb_le _ _)). Qed.

Lemma Qscale_back x e :
  e ≤ 0 → (Qscale x (- e) == x / inject_Z (2 ^ (- e)))%Q.
Proof.
  intros H. unfold Qscale. destruct (Z.leb_spec (- e) 0) as [H0|H0].
  - assert (e = 0) as -> by lia. cbn. unfold Qdiv.
    change (/ 1)%Q with 1%Q. reflexivity.
  - reflexivity.
Qed.

Lemma inject_Z_pow2_pos k : 0 ≤ k → (0 < inject_Z (2 ^ k))%Q.
Proof.
  intros Hk. change 0%Q with (inject_Z 0). rewrite <- Zlt_Qlt.
  apply Z.pow_pos_nonneg; lia.
Qed.

(** A float64 rounding keeps a value between 0 and an integer that is not
    above 2^52 between them. *)
Lemma b64_bounds q T :
  (0 <= q)%Q → (q <= inject_Z T)%Q → T ≤ 2 ^ 52 →
  (0 <= b64 q)%Q ∧ (b64 q <= inject_Z T)%Q.
Proof.
  intros H0 HT HT52.
  assert (0 <= inject_Z T)%Q as H0T by (by eapply Qle_trans).
  unfold b64. destruct (Qnum q) as [|n|n] eqn:En.
  - split; [apply Qle_refl|done].
  - unfold b64_pos. rewrite En.
    assert (ulp_exponent (Z.pos n) (Qden q) ≤ 0) as He.
    { apply ulp_exponent_nonpos; [lia|].
      unfold Qle in HT. cbn in HT. rewrite En in HT.
      change 0%Q with (inject_Z 0) in H0T. rewrite <- Zle_Qle in H0T. nia. }
    set (e := ulp_exponent (Z.pos n) (Qden q)) in *.
    pose proof (inject_Z_pow2_pos (- e) ltac:(lia)) as HP.
    rewrite Qscale_back, Qscale_nonpos by done.
    assert (0 ≤ round_half_even (q * inject_Z (2 ^ (- e))) ≤ T * 2 ^ (- e))
      as [Hm0 Hm1].
    { apply round_half_even_bounds.
      - apply Qmult_le_0_compat; [done|by apply Qlt_le_weak].
      - rewrite inject_Z_mult. apply Qmult_le_compat_r; [done|].
        by apply Qlt_le_weak. }
    split.
    + apply Qle_shift_div_l; [done|]. rewrite Qmult_0_l.
      change 0%Q with (inject_Z 0). by rewrite <- Zle_Qle.
    + apply Qle_shift_div_r; [done|].
      by rewrite <- inject_Z_mult, <- Zle_Qle.
  - exfalso. unfold Qle in H0. cbn in H0. rewrite En in H0. lia.
Qed.

Lemma Qmult_bounds x T c :
  (0 <= x)%Q → (x <= inject_Z T)%Q → 0 ≤ c →
  (0 <= x * inject_Z c)%Q ∧ (x * inject_Z c <= inject_Z (T * c))%Q.
Proof.
  intros H0 HT Hc.
  assert (0 <= inject_Z c)%Q as Hc'
    by (change 0%Q with (inject_Z 0); by rewrite <- Zle_Qle).
  split; [by apply Qmult_le_0_compat|].
  rewrite inject_Z_mult. by apply Qmult_le_compat_r.
Qed.

Lemma round1_percentage x :
  (0 <= x)%Q → (x <= inject_Z 100)%Q →
  (0 <= round1 x)%Q ∧ (round1 x <= inject_Z 100)%Q.
Proof.
  intros H0 H1. unfold round1.
  destruct (Qmult_bounds x 100 10 H0 H1 ltac:(lia)) as [Ha Hb].
  destruct (b64_bounds _ _ Ha Hb ltac:(lia)) as [Hc Hd].
  destruct (round_half_even_bounds _ 0 (100 * 10) Hc Hd) as [He Hf].
  change (x * inject_Z 10)%Q with (x * 10)%Q in He, Hf.
  revert He Hf. generalize (round_half_even (b64 (x * 10))).
  intros k Hk0 Hk1.
  assert (0 < 10)%Q as H10 by reflexivity.
  apply b64_bounds; [| |lia].
  - apply Qle_shift_div_l; [done|]. rewrite Qmult_0_l.
    change 0%Q with (inject_Z 0). by rewrite <- Zle_Qle.
  - apply Qle_shift_div_r; [done|].
    change (inject_Z 100 * 10)%Q with (inject_Z (100 * 10)).
    by rewrite <- Zle_Qle.
Qed.

Lemma rate_of_percentage a b :
  0 ≤ a ≤ b → 1 ≤ b → is_percentage (rate_of (pd_div a b)).
Proof.
  intros Ha Hb. unfold pd_div.
  rewrite (proj2 (Z.eqb_neq _ _)) by lia. cbn [rate_of].
  eexists. split; [reflexivity|].
  assert (0 <= inject_Z a / inject_Z b)%Q as Hq0.
  { apply Qmult_le_0_compat.
    - unfold Qle. cbn. lia.
    - apply Qinv_le_0_compat. unfold Qle. cbn. lia. }
  assert (inject_Z a / inject_Z b <= inject_Z 1)%Q as Hq1.
  { apply Qle_shift_div_r; [unfold Qlt; cbn; lia|].
    rewrite Qmult_1_l. unfold Qle. cbn. lia. }
  destruct (b64_bounds _ _ Hq0 Hq1 ltac:(lia)) as [Hx0 Hx1].
  destruct (Qmult_bounds _ 1 100 Hx0 Hx1 ltac:(lia)) as [Hy0 Hy1].
  destruct (b64_bounds _ _ Hy0 Hy1 ltac:(lia)) as [Hz0 Hz1].
  destruct (round1_percentage _ Hz0 Hz1) as [Hr0 Hr1].
  split; [exact Hr0|exact Hr1].
Qed.

(** The rates of 23 cards out of 80 and of 49 out of 80: the float64
    products are just below 28.75 and just above 61.25. *)
Example rate_of_23_of_80 : rate_of (pd_div 23 80) = Fin (b64 (287 # 10)).
Proof. vm_compute. reflexivity. Qed.

Example rate_of_49_of_80 : rate_of (pd_div 49 80) = Fin (b64 (613 # 10)).
Proof. vm_compute. reflexivity. Qed.

(** X11.  The ranking holds the rows of the table per member, each with
    its rate, sorted by [completed] in descending order; every rate is a
    percentage between 0 and 100. *)
Theorem ranking_rows df s e rk :
  get_productivity_ranking df s e = Ok rk →
  ∃ dfm, get_cards_by_member df s e = Ok dfm ∧
         rk ≡ₚ with_rate <$> dfm ∧
         StronglySorted (λ x y, rk_completed y ≤ rk_completed x) rk ∧
         ∀ r, r ∈ rk → is_percentage (completion_rate r).
Proof.
  unfold get_productivity_ranking.
  destruct (get_cards_by_member df s e) as [dfm|] eqn:E; [|done].
  result_simpl. intros Hrk. exists dfm. split; [done|].
  assert (rk = sorted_desc rk_completed (with_rate <$> dfm)) as ->.
  { destruct dfm; injection Hrk as <-; done. }
  split; [apply sort_by_Permutation|].
  split; [apply sorted_desc_StronglySorted|].
  intros r. rewrite elem_of_sorted_desc, list_elem_of_fmap.
  intros (m & -> & Hm). cbn.
  pose proof (get_cards_by_member_created _ _ _ _ _ E Hm).
  apply get_cards_by_member_eq in E as [Hp _]. rewrite Hp in Hm.
  rewrite groupby_sum_Permutation, list_elem_of_fmap in Hm.
  destruct Hm as ([k v] & -> & Hkv%elem_of_map_to_list). cbn in *.
  apply rate_of_percentage; [|done].
  eapply (foldl_group_add_completed _ ∅); [| |exact Hkv].
  - intros x. rewrite list_elem_of_In, in_flat_map.
    intros (r0 & _ & Hx). rewrite <- list_elem_of_In in Hx.
    destruct (explode_members_completed r0 x Hx) as (? & ? & ?). lia.
  - apply map_Forall_empty.
Qed.

Lemma ranking_rows_witness :
  ∃ dfm, get_cards_by_member sample_frame (naive (jan 1)) (naive (jan 10)) = Ok dfm ∧
         sample_ranking ≡ₚ with_rate <$> dfm ∧
         StronglySorted (λ x y, rk_completed y ≤ rk_completed x) sample_ranking ∧
         ∀ r, r ∈ sample_ranking → is_percentage (completion_rate r).
Proof.
  apply (ranking_rows sample_frame (naive (jan 1)) (naive (jan 10))).
  vm_compute. reflexivity.
Defined.

(** ** The table per label *)

Lemma counter_add_cons x y n (c : list (pystr * Z)) :
  counter_add x ((y, n) :: c) =
    if decide (x = y) then (y, n + 1) :: c else (y, n) :: counter_add x c.
Proof.
  cbn [counter_add]. unfold str_eqb.
  destruct (decide (x = y)).
  - by rewrite bool_decide_eq_true_2.
  - by rewrite bool_decide_eq_false_2.
Qed.

Lemma counter_add_keys x (c : list (pystr * Z)) :
  (counter_add x c).*1 = if bool_decide (x ∈ c.*1) then c.*1 else c.*1 ++ [x].
Proof.
  induction c as [|[y n] c IH].
  - cbn. rewrite bool_decide_eq_false_2; [done|]. apply not_elem_of_nil.
  - rewrite counter_add_cons. destruct (decide (x = y)) as [->|Hxy].
    + rewrite !fmap_cons. cbn [fst].
      rewrite bool_decide_eq_true_2; [done|]. left.
    + rewrite !fmap_cons. cbn [fst]. rewrite IH.
      rewrite (bool_decide_ext (x ∈ y :: c.*1) (x ∈ c.*1)).
      * by destruct (bool_decide (x ∈ c.*1)).
      * rewrite elem_of_cons. intuition congruence.
Qed.

Lemma counter_add_NoDup x (c : list (pystr * Z)) :
  NoDup c.*1 → NoDup (counter_add x c).*1.
Proof.
  intros H. rewrite counter_add_keys. case_bool_decide as Hx; [done|].
  apply NoDup_app. split; [done|]. split; [|apply NoDup_singleton].
  intros y Hy ->%list_elem_of_singleton. done.
Qed.

Lemma counter_add_to_map x (c : list (pystr * Z)) :
  (list_to_map (counter_add x c) : gmap pystr Z) =
  <[x := default 0 ((list_to_map c : gmap pystr Z) !! x) + 1]> (list_to_map c).
Proof.
  induction c as [|[y n] c IH]; [done|].
  rewrite counter_add_cons. destruct (decide (x = y)) as [->|Hxy].
  - rewrite !list_to_map_cons, lookup_insert_eq. cbn [default].
    by rewrite insert_insert_eq.
  - rewrite !list_to_map_cons, IH, lookup_insert_ne by done.
    by apply insert_insert_ne.
Qed.

Lemma counter_add_positive x (c : list (pystr * Z)) :
  Forall (λ p, 1 ≤ snd p) c → Forall (λ p, 1 ≤ snd p) (counter_add x c).
Proof.
  induction 1 as [|[y n] c Hy Hc IH]; [by repeat constructor|].
  rewrite counter_add_cons. cbn [snd] in Hy.
  destruct (decide (x = y)); constructor; cbn [snd]; try done. lia.
Qed.

Lemma counter_add_sum x (c : list (pystr * Z)) :
  Zsum (counter_add x c).*2 = Zsum c.*2 + 1.
Proof.
  induction c as [|[y n] c IH]; [done|].
  rewrite counter_add_cons.
  destruct (decide (x = y)); rewrite !fmap_cons, !Zsum_cons; cbn [snd]; lia.
Qed.

(** The counter after a list of labels: distinct keys, positive counts,
    and for each label the number of its occurrences added to its count. *)
Lemma Counter_fold l (c : list (pystr * Z)) y :
  NoDup c.*1 →
  Forall (λ p, 1 ≤ snd p) c →
  let c' := foldl (λ c x, counter_add x c) c l in
  NoDup c'.*1 ∧
  Forall (λ p, 1 ≤ snd p) c' ∧
  Zsum c'.*2 = Zsum c.*2 + Z.of_nat (length l) ∧
  default 0 ((list_to_map c' : gmap pystr Z) !! y) =
    default 0 ((list_to_map c : gmap pystr Z) !! y) +
    Z.of_nat (countb (λ x, bool_decide (x = y)) l).
Proof.
  revert c. induction l as [|x l IH]; intros c Hc Hp; cbn zeta.
  - cbn [foldl length]. rewrite countb_nil. repeat split; try done; lia.
  - cbn [foldl].
    destruct (IH (counter_add x c) (counter_add_NoDup x c Hc)
                (counter_add_positive x c Hp)) as (Hn & Hpos & -> & ->).
    repeat split; try done.
    + rewrite counter_add_sum. cbn [length]. lia.
    + rewrite counter_add_to_map, countb_cons, lookup_insert.
      destruct (decide (x = y)) as [->|Hne].
      * rewrite bool_decide_eq_true_2 by done. cbn. lia.
      * rewrite bool_decide_eq_false_2 by done. cbn. lia.
Qed.

Lemma countb_elem_of_pos (x : pystr) l :
  x ∈ l → (1 ≤ countb (λ y, bool_decide (y = x)) l)%nat.
Proof.
  induction 1 as [x l|x y l _ IH]; rewrite countb_cons; [|lia].
  rewrite bool_decide_eq_true_2 by done. lia.
Qed.

(** X12.  The table per label has one row per label that occurs among the
    cards created in the range (['Sem label'] standing for a card without
    label), with the number of its occurrences, which is at least 1; the
    counts sum to the number of occurrences of all labels, and the rows are
    sorted by count in descending order. *)
Theorem by_label_rows df s e res :
  get_cards_by_label df s e = Ok res →
  let label_cards :=
    flat_map explode_labels
      (filter (λ r, in_range (wall s) (wall e) (created_date r) = true)
         (rows df)) in
  NoDup res.*1 ∧
  (∀ x n, (x, n) ∈ res →
     n = Z.of_nat (countb (λ y, bool_decide (y = x)) label_cards) ∧ 1 ≤ n) ∧
  (∀ x, x ∈ label_cards → x ∈ res.*1) ∧
  Zsum res.*2 = Z.of_nat (length label_cards) ∧
  StronglySorted (λ p q, snd q ≤ snd p) res.
Proof.
  unfold get_cards_by_label. rewrite filter_by_date_range_eq.
  destruct (bool_decide _); [|done]. result_simpl. rewrite rows_select_map.
  cbn zeta. generalize (flat_map explode_labels
    (filter (λ r, in_range (wall s) (wall e) (created_date r) = true) (rows df))).
  intros l Hres.
  assert (res = sorted_desc snd (Counter l)) as ->.
  { destruct l; injection Hres as <-; done. }
  clear Hres.
  assert (sorted_desc snd (Counter l) ≡ₚ Counter l) as Hp
    by apply sort_by_Permutation.
  assert (Hc : ∀ y, NoDup (Counter l).*1 ∧
            Forall (λ p, 1 ≤ snd p) (Counter l) ∧
            Zsum (Counter l).*2 = Z.of_nat (length l) ∧
            default 0 ((list_to_map (Counter l) : gmap pystr Z) !! y) =
            Z.of_nat (countb (λ x, bool_decide (x = y)) l)).
  { intros y.
    destruct (Counter_fold l [] y (NoDup_nil_2) (Forall_nil_2 _))
      as (H1 & H2 & H3 & H4).
    unfold Counter. rewrite H3, H4. repeat split; try done; cbn; lia. }
  destruct (Hc []) as (Hnd & Hpos & Hsum & _).
  split; [by rewrite Hp|]. split; [|split; [|split]].
  - intros x n. rewrite Hp. intros Hx. destruct (Hc x) as (_ & _ & _ & Hcount).
    rewrite Forall_forall in Hpos. split; [|apply (Hpos _ Hx)].
    apply elem_of_list_to_map in Hx; [|done].
    by rewrite Hx in Hcount.
  - intros x Hx. rewrite Hp. destruct (Hc x) as (_ & _ & _ & Hcount).
    pose proof (countb_elem_of_pos x l Hx) as Hge.
    destruct ((list_to_map (Counter l) : gmap pystr Z) !! x) as [n|] eqn:E;
      [|cbn in Hcount; lia].
    apply elem_of_list_to_map in E; [|done].
    by apply (list_elem_of_fmap_2 fst) in E.
  - by rewrite (Zsum_fmap_Permutation snd _ _ Hp).
  - apply sorted_desc_StronglySorted.
Qed.

Lemma by_label_rows_witness :
  let res := sorted_desc snd (Counter (flat_map explode_labels (rows sample_frame))) in
  let label_cards :=
    flat_map explode_labels
      (filter (λ r, in_range (wall (naive (jan 1))) (wall (naive (jan 10)))
                      (created_date r) = true)
         (rows sample_frame)) in
  NoDup res.*1 ∧
  (∀ x n, (x, n) ∈ res →
     n = Z.of_nat (countb (λ y, bool_decide (y = x)) label_cards) ∧ 1 ≤ n) ∧
  (∀ x, x ∈ label_cards → x ∈ res.*1) ∧
  Zsum res.*2 = Z.of_nat (length label_cards) ∧
  StronglySorted (λ p q, snd q ≤ snd p) res.
Proof.
  apply (by_label_rows sample_frame (naive (jan 1)) (naive (jan 10))).
  vm_compute. reflexivity.
Defined.

(** ** Overdue cards *)

Lemma due_leb_total x y : due_leb x y = true ∨ due_leb y x = true.
Proof.
  unfold due_leb. destruct (due_date x), (due_date y); auto.
  destruct (Z.leb_spec z z0); [by left|right]. apply Z.leb_le. lia.
Qed.

Lemma due_leb_trans x y z :
  due_leb x y = true → due_leb y z = true → due_leb x z = true.
Proof.
  unfold due_leb. destruct (due_date x), (due_date y), (due_date z);
    try done. rewrite !Z.leb_le. lia.
Qed.

Lemma get_overdue_cards_with_columns df :
  columns df = card_columns →
  get_overdue_cards df =
    Ok {| columns := card_columns;
          rows := sort_by due_leb
                    (filter (λ r, is_overdue r = true) (rows df)) |}.
Proof.
  intros Hc. unfold get_overdue_cards, getitem. rewrite Hc.
  rewrite bool_decide_eq_true_2 by (unfold card_columns; set_solver).
  result_simpl. cbn [columns select]. rewrite Hc.
  rewrite bool_decide_eq_true_2 by (unfold card_columns; set_solver).
  result_simpl. by rewrite rows_select_map.
Qed.

Lemma overdue_row_has_due now data r :
  r ∈ rows (create_cards_dataframe now data) →
  is_overdue r = true → ∃ d, due_date r = Some d ∧ d < now.
Proof.
  unfold create_cards_dataframe. rewrite rows_pd_DataFrame.
  intros (c & _ & Hc)%elem_of_cards_data.
  unfold derive_card in Hc. destruct (closed c); [done|].
  injection Hc as <-. cbn. destruct (due c) as [d|]; [|done].
  intros [_ H]%andb_true_iff. exists d. split; [done|]. lia.
Qed.

Lemma StronglySorted_due_dates l :
  StronglySorted (leb_rel due_leb) l →
  (∀ r, r ∈ l → ∃ d, due_date r = Some d) →
  StronglySorted
    (λ x y, ∃ a b, due_date x = Some a ∧ due_date y = Some b ∧ a ≤ b) l.
Proof.
  induction 1 as [|x l' Hl IH Hx]; intros Hdue; constructor.
  - apply IH. intros r Hr. apply Hdue. by right.
  - rewrite Forall_forall in Hx |- *. intros y Hy.
    destruct (Hdue x (list_elem_of_here _ _)) as (a & Ha).
    destruct (Hdue y (list_elem_of_further _ _ _ Hy)) as (b & Hb).
    exists a, b. split; [done|]. split; [done|].
    specialize (Hx y Hy). unfold leb_rel, due_leb in Hx.
    rewrite Ha, Hb in Hx. by apply Z.leb_le.
Qed.

(** X13.  The listing of overdue cards holds exactly the rows marked
    overdue; each has a due date before [now], and the listing is in
    ascending order of due date. *)
Theorem overdue_cards_listing now data res :
  let df := create_cards_dataframe now data in
  get_overdue_cards df = Ok res →
  rows res ≡ₚ filter (λ r, is_overdue r = true) (rows df) ∧
  (∀ r, r ∈ rows res → ∃ d, due_date r = Some d ∧ d < now) ∧
  StronglySorted
    (λ x y, ∃ a b, due_date x = Some a ∧ due_date y = Some b ∧ a ≤ b)
    (rows res).
Proof.
  cbn zeta. intros Hres.
  assert (rows (create_cards_dataframe now data) ≠ []) as Hc%frame_columns.
  { intros E. unfold create_cards_dataframe in *.
    rewrite rows_pd_DataFrame in E. rewrite E in Hres. discriminate Hres. }
  rewrite get_overdue_cards_with_columns in Hres by done.
  injection Hres as <-. cbn [rows].
  set (l := filter (λ r, is_overdue r = true)
              (rows (create_cards_dataframe now data))).
  assert (Hdue : ∀ r, r ∈ sort_by due_leb l → ∃ d, due_date r = Some d ∧ d < now).
  { intros r. rewrite elem_of_sort_by. unfold l.
    rewrite list_elem_of_filter. intros [Ho Hr].
    by eapply overdue_row_has_due. }
  split; [apply sort_by_Permutation|]. split; [exact Hdue|].
  apply (StronglySorted_due_dates (sort_by due_leb l));
    [apply (sort_by_StronglySorted due_leb due_leb_total due_leb_trans)|].
  intros r Hr. destruct (Hdue r Hr) as (d & Hd & _). eauto.
Qed.

Lemma overdue_cards_listing_witness :
  let df := sample_frame in
  let res := {| columns := card_columns;
                rows := sort_by due_leb
                          (filter (λ r, is_overdue r = true) (rows sample_frame)) |} in
  rows res ≡ₚ filter (λ r, is_overdue r = true) (rows df) ∧
  (∀ r, r ∈ rows res → ∃ d, due_date r = Some d ∧ d < sample_now) ∧
  StronglySorted
    (λ x y, ∃ a b, due_date x = Some a ∧ due_date y = Some b ∧ a ≤ b)
    (rows res).
Proof.
  apply (overdue_cards_listing sample_now sample_data).
  vm_compute. reflexivity.
Defined.

(** ** The average completion time *)

(** The sample board over the first ten days of January: cards A and D
    are completed in the range, after 4 and 0 days. *)
Lemma average_completion_time_with_columns_witness :
  let hits := filter (λ r, in_range (wall (naive (jan 1))) (wall (naive (jan 10)))
                             (completed_date r) = true)
                (rows sample_frame) in
  get_average_completion_time sample_frame (naive (jan 1)) (naive (jan 10)) =
    Ok (match hits with
        | [] => Fin 0
        | _ :: _ => series_mean (completion_time_days <$> hits)
        end).
Proof.
  apply (average_completion_time_with_columns sample_frame (naive (jan 1))
           (naive (jan 10))).
  reflexivity.
Defined.

Example average_completion_time_sample :
  ∃ q, get_average_completion_time sample_frame (naive (jan 1)) (naive (jan 10))
       = Ok (Fin q) ∧ (q == 2)%Q.
Proof. eexists. split; [vm_compute; reflexivity|reflexivity]. Qed.

(** ** The fetch of the board *)

Section ClientRuns.
Context (json : Type) (remote : string → option json).
Context (card_ids : json → list string).

Lemma make_request_eq cfg endpoint :
  make_request json remote cfg endpoint =
    ([request_of cfg (TRELLO_API_BASE_URL ++ endpoint)],
     remote (TRELLO_API_BASE_URL ++ endpoint)%string).
Proof. done. Qed.

(** The loop over the cards never fails: it pairs each card, in order,
    with the answer to the request for its history. *)
Lemma fetch_actions_eq cfg ids :
  fetch_actions json remote cfg ids =
    (flat_map (card_trace remote cfg) ids,
     Some ((λ i, (i, remote (actions_url i))) <$> ids)).
Proof.
  induction ids as [|i ids IH]; [done|].
  cbn [fetch_actions flat_map]. rewrite IH, fmap_cons.
  change (make_request json remote cfg ("/cards/" +:+ i +:+ "/actions"))
    with ([request_of cfg (actions_url i)], remote (actions_url i)).
  assert (card_trace remote cfg i =
          request_of cfg (actions_url i) ::
          match remote (actions_url i) with
          | Some _ => []
          | None => [Warn i]
          end) as -> by done.
  destruct (remote (actions_url i)); cbn [io_bind app];
    by rewrite ?app_nil_r.
Qed.

Lemma get_all_board_data_ok_eq cfg b l m c lb :
  remote (board_url cfg "") = Some b →
  remote (board_url cfg "/lists") = Some l →
  remote (board_url cfg "/members") = Some m →
  remote (board_url cfg "/cards") = Some c →
  remote (board_url cfg "/labels") = Some lb →
  get_all_board_data json remote card_ids cfg =
    ((request_of cfg <$> board_urls cfg) ++
       flat_map (card_trace remote cfg) (card_ids c),
     Some {| bd_board := b; bd_lists := l; bd_members := m;
             bd_cards := (λ i, (i, remote (actions_url i))) <$> card_ids c;
             bd_labels := lb |}).
Proof.
  unfold board_url. intros Hb Hl Hm Hc Hlb.
  unfold get_all_board_data.
  rewrite make_request_eq, Hb. cbn [io_bind].
  rewrite make_request_eq, Hl. cbn [io_bind].
  rewrite make_request_eq, Hm. cbn [io_bind].
  rewrite make_request_eq, Hc. cbn [io_bind].
  rewrite make_request_eq, Hlb. cbn [io_bind].
  rewrite fetch_actions_eq. cbn [io_bind app].
  by rewrite app_nil_r.
Qed.

Lemma board_urls_eq cfg :
  board_urls cfg =
    [board_url cfg ""; board_url cfg "/lists"; board_url cfg "/members";
     board_url cfg "/cards"; board_url cfg "/labels"].
Proof. done. Qed.

Ltac earlier_answered :=
  let j := fresh "j" in
  let v := fresh "v" in
  let Hj := fresh "Hj" in
  let Hv := fresh "Hv" in
  intros j v Hj Hv; rewrite board_urls_eq in Hv;
  repeat (destruct j as [|j];
          [cbn [lookup list_lookup] in Hv; injection Hv as <-; eauto|]);
  lia.

Lemma get_all_board_data_fail_eq cfg :
  Exists (λ u, remote u = None) (board_urls cfg) →
  ∃ k u, board_urls cfg !! k = Some u ∧ remote u = None ∧
         (∀ j v, (j < k)%nat → board_urls cfg !! j = Some v → is_Some (remote v)) ∧
         get_all_board_data json remote card_ids cfg =
           (request_of cfg <$> take (S k) (board_urls cfg), None).
Proof.
  intros H. unfold get_all_board_data.
  rewrite make_request_eq. fold (board_url cfg "").
  destruct (remote (board_url cfg "")) as [b|] eqn:E0; cbn [io_bind];
    [|exists 0%nat, (board_url cfg "");
      split; [done|]; split; [done|]; split; [earlier_answered|done]].
  rewrite make_request_eq. fold (board_url cfg "/lists").
  destruct (remote (board_url cfg "/lists")) as [l|] eqn:E1; cbn [io_bind];
    [|exists 1%nat, (board_url cfg "/lists");
      split; [done|]; split; [done|]; split; [earlier_answered|done]].
  rewrite make_request_eq. fold (board_url cfg "/members").
  destruct (remote (board_url cfg "/members")) as [m|] eqn:E2; cbn [io_bind];
    [|exists 2%nat, (board_url cfg "/members");
      split; [done|]; split; [done|]; split; [earlier_answered|done]].
  rewrite make_request_eq. fold (board_url cfg "/cards").
  destruct (remote (board_url cfg "/cards")) as [c|] eqn:E3; cbn [io_bind];
    [|exists 3%nat, (board_url cfg "/cards");
      split; [done|]; split; [done|]; split; [earlier_answered|done]].
  rewrite make_request_eq. fold (board_url cfg "/labels").
  destruct (remote (board_url cfg "/labels")) as [lb|] eqn:E4; cbn [io_bind];
    [|exists 4%nat, (board_url cfg "/labels");
      split; [done|]; split; [done|]; split; [earlier_answered|done]].
  exfalso. rewrite board_urls_eq in H.
  rewrite !Exists_cons, Exists_nil in H. intuition congruence.
Qed.

Lemma io_bind_Forall {A B} (P : event → Prop) (m : io A) (f : A → io B) :
  Forall P (fst m) → (∀ a, Forall P (fst (f a))) →
  Forall P (fst (io_bind m f)).
Proof.
  destruct m as [t [a|]]; cbn; [|done]. intros Ht Hf.
  specialize (Hf a). destruct (f a) as [t' b]. cbn in *.
  by apply Forall_app.
Qed.

Lemma request_of_fetch_event cfg endpoint :
  fetch_event cfg (request_of cfg (TRELLO_API_BASE_URL ++ endpoint)).
Proof. cbn. eauto. Qed.

Lemma get_all_board_data_events cfg :
  Forall (fetch_event cfg) (fst (get_all_board_data json remote card_ids cfg)).
Proof.
  unfold get_all_board_data.
  do 5 (apply io_bind_Forall;
          [rewrite make_request_eq;
           constructor; [apply request_of_fetch_event|constructor]|intros ?]).
  apply io_bind_Forall; [|intros; constructor].
  rewrite fetch_actions_eq. cbn [fst]. apply Forall_forall. intros ev.
  rewrite list_elem_of_In, in_flat_map. intros (i & _ & Hev).
  rewrite <- list_elem_of_In in Hev. unfold card_trace in Hev.
  apply elem_of_cons in Hev as [->|Hev].
  - apply (request_of_fetch_event cfg ("/cards/" ++ i ++ "/actions")).
  - destruct (remote _); [by apply elem_of_nil in Hev|].
    by apply list_elem_of_singleton in Hev as ->.
Qed.

Lemma requests_card_traces cfg ids :
  length (requests (flat_map (card_trace remote cfg) ids)) = length ids ∧
  warnings (flat_map (card_trace remote cfg) ids) =
    filter (λ i, ¬ is_Some (remote (actions_url i))) ids.
Proof.
  induction ids as [|i ids [IH1 IH2]]; [done|].
  cbn [flat_map]. unfold requests, warnings in *.
  rewrite filter_app, length_app, IH1, omap_app, IH2, filter_cons.
  unfold card_trace. destruct (remote (actions_url i)) as [j|] eqn:E.
  - rewrite decide_False by (intros H; apply H; eauto). done.
  - rewrite decide_True by (by intros [? ?]). done.
Qed.

(** X14.  When the five requests about the board are answered, the fetch
    succeeds whatever becomes of the requests for the histories: it issues
    the five requests and then one per card, in order; each card comes with
    the answer for its history, or with none when that request failed; and
    it warns exactly about the cards whose request failed. *)
Theorem board_fetch_tolerates_card_failures cfg b l m c lb :
  remote (board_url cfg "") = Some b →
  remote (board_url cfg "/lists") = Some l →
  remote (board_url cfg "/members") = Some m →
  remote (board_url cfg "/cards") = Some c →
  remote (board_url cfg "/labels") = Some lb →
  ∃ t d, get_all_board_data json remote card_ids cfg = (t, Some d) ∧
    requests t = (request_of cfg <$> board_urls cfg) ++
                 ((λ i, request_of cfg (actions_url i)) <$> card_ids c) ∧
    warnings t = filter (λ i, ¬ is_Some (remote (actions_url i))) (card_ids c) ∧
    bd_cards json d = (λ i, (i, remote (actions_url i))) <$> card_ids c ∧
    main json remote card_ids cfg =
      if is_configured cfg then t ++ [RenderDashboard] else [ShowConfigPage].
Proof.
  intros Hb Hl Hm Hc Hlb. eexists _, _.
  split; [by apply get_all_board_data_ok_eq|].
  assert (∀ ids, requests (flat_map (card_trace remote cfg) ids) =
                 (λ i, request_of cfg (actions_url i)) <$> ids) as Hreq.
  { induction ids as [|i ids IH]; [done|]. cbn [flat_map]. unfold requests in *.
    rewrite filter_app, IH, fmap_cons. unfold card_trace.
    by destruct (remote (actions_url i)). }
  split; [|split; [|split]].
  - unfold requests in *. rewrite filter_app, Hreq. done.
  - pose proof (proj2 (requests_card_traces cfg (card_ids c))) as Hw.
    unfold warnings in Hw |- *. by rewrite omap_app, Hw.
  - done.
  - unfold main. rewrite (get_all_board_data_ok_eq _ _ _ _ _ _ Hb Hl Hm Hc Hlb).
    by destruct (is_configured cfg).
Qed.

(** X15.  When one of the five requests about the board fails, the fetch
    fails: it stops at the first request that fails, so it issues no
    request after it, none for the history of a card, and no warning;
    [main] then shows the error and does not render. *)
Theorem board_fetch_stops_at_first_failure cfg :
  Exists (λ u, remote u = None) (board_urls cfg) →
  ∃ k u, board_urls cfg !! k = Some u ∧ remote u = None ∧
    (∀ j v, (j < k)%nat → board_urls cfg !! j = Some v → is_Some (remote v)) ∧
    get_all_board_data json remote card_ids cfg =
      (request_of cfg <$> take (S k) (board_urls cfg), None) ∧
    (is_configured cfg = true →
     main json remote card_ids cfg =
       (request_of cfg <$> take (S k) (board_urls cfg)) ++ [ShowError]).
Proof.
  intros (k & u & Hk & Hu & Hlt & Heq)%get_all_board_data_fail_eq.
  exists k, u. repeat split; try done.
  intros Hc. unfold main. by rewrite Hc, Heq.
Qed.

(** X16.  Every request of a run of [main] goes to the Trello service and
    carries the key and the token of the configuration, none of which is
    empty; apart from its requests and warnings a run holds exactly one
    event, its last: the configuration page, the error or the dashboard. *)
Theorem main_requests_carry_credentials cfg :
  (∀ url key token, HttpGet url key token ∈ main json remote card_ids cfg →
     key = TRELLO_API_KEY cfg ∧ token = TRELLO_TOKEN cfg ∧
     key ≠ ""%string ∧ token ≠ ""%string ∧ TRELLO_BOARD_ID cfg ≠ ""%string ∧
     ∃ endpoint, url = (TRELLO_API_BASE_URL ++ endpoint)%string) ∧
  ∃ t outcome, main json remote card_ids cfg = t ++ [outcome] ∧
               Forall (fetch_event cfg) t ∧
               outcome ∈ [ShowConfigPage; ShowError; RenderDashboard].
Proof.
  pose proof (get_all_board_data_events cfg) as Hev.
  unfold main. destruct (is_configured cfg) eqn:Hc; cbn [negb].
  - apply is_configured_true in Hc as (Hk & Ht & Hb).
    destruct (get_all_board_data json remote card_ids cfg) as [t [d|]];
      cbn [fst] in Hev.
    + split; [|exists t, RenderDashboard; repeat split; [done|set_solver]].
      intros url key token [Hin|Hin%list_elem_of_singleton]%elem_of_app;
        [|done].
      rewrite Forall_forall in Hev. destruct (Hev _ Hin) as (-> & -> & Hep).
      done.
    + split; [|exists t, ShowError; repeat split; [done|set_solver]].
      intros url key token [Hin|Hin%list_elem_of_singleton]%elem_of_app;
        [|done].
      rewrite Forall_forall in Hev. destruct (Hev _ Hin) as (-> & -> & Hep).
      done.
  - split; [by intros url key token Hin%list_elem_of_singleton|].
    exists [], ShowConfigPage. repeat split; [constructor|set_solver].
Qed.
End ClientRuns.

Lemma board_fetch_tolerates_card_failures_witness :
  ∃ t d, get_all_board_data (list string) sample_remote id sample_cfg = (t, Some d) ∧
    requests t = (request_of sample_cfg <$> board_urls sample_cfg) ++
                 ((λ i, request_of sample_cfg (actions_url i)) <$>
                    id ["c1"; "c2"]%string) ∧
    warnings t =
      filter (λ i, ¬ is_Some (sample_remote (actions_url i)))
        (id ["c1"; "c2"]%string) ∧
    bd_cards (list string) d =
      (λ i, (i, sample_remote (actions_url i))) <$> id ["c1"; "c2"]%string ∧
    main (list string) sample_remote id sample_cfg =
      if is_configured sample_cfg then t ++ [RenderDashboard]
      else [ShowConfigPage].
Proof.
  apply (board_fetch_tolerates_card_failures (list string) sample_remote id
           sample_cfg ["c1"; "c2"]%string ["c1"; "c2"]%string
           ["c1"; "c2"]%string ["c1"; "c2"]%string ["c1"; "c2"]%string);
    vm_compute; reflexivity.
Defined.

Example sample_fetch_warns_once :
  warnings (fst (get_all_board_data (list string) sample_remote id sample_cfg))
  = ["c2"]%string.
Proof. vm_compute. reflexivity. Qed.

Lemma board_fetch_stops_at_first_failure_witness :
  ∃ k u, board_urls sample_cfg !! k = Some u ∧ failing_remote u = None ∧
    (∀ j v, (j < k)%nat → board_urls sample_cfg !! j = Some v →
            is_Some (failing_remote v)) ∧
    get_all_board_data (list string) failing_remote id sample_cfg =
      (request_of sample_cfg <$> take (S k) (board_urls sample_cfg), None) ∧
    (is_configured sample_cfg = true →
     main (list string) failing_remote id sample_cfg =
       (request_of sample_cfg <$> take (S k) (board_urls sample_cfg)) ++
       [ShowError]).
Proof.
  apply (board_fetch_stops_at_first_failure (list string) failing_remote id
           sample_cfg).
  do 2 apply Exists_cons_tl. apply Exists_cons_hd. vm_compute. reflexivity.
Defined.

(** ** The average on a board with cards *)

(** X17.  On a board with an open card the average completion time never
    fails: it is 0 when no completion date lies in the range, and otherwise
    the mean of the completion times of the rows whose completion date lies
    in it, a row without completion time being left out of the mean. *)
Theorem average_completion_time_on_board now data s e :
  let df := create_cards_dataframe now data in
  let hits := filter (λ r, in_range (wall s) (wall e) (completed_date r) = true)
                (rows df) in
  rows df ≠ [] →
  get_average_completion_time df s e =
    Ok (match hits with
        | [] => Fin 0
        | _ :: _ =>
            match omap completion_time_days hits with
            | [] => NaN
            | vs => Fin (Qsum vs / inject_Z (Z.of_nat (length vs)))
            end
        end).
Proof.
  cbn zeta. intros Hc%frame_columns.
  rewrite (average_completion_time_with_columns _ s e Hc). cbn zeta.
  destruct (filter _ _) as [|r l]; [done|]. unfold series_mean.
  assert (∀ l : list row,
            omap id (completion_time_days <$> l) = omap completion_time_days l)
    as ->; [|done].
  clear. induction l as [|x l IH]; [done|].
  rewrite fmap_cons.
  change (omap id (completion_time_days x :: (completion_time_days <$> l)))
    with (match completion_time_days x with
          | Some q => q :: omap id (completion_time_days <$> l)
          | None => omap id (completion_time_days <$> l)
          end).
  change (omap completion_time_days (x :: l))
    with (match completion_time_days x with
          | Some q => q :: omap completion_time_days l
          | None => omap completion_time_days l
          end).
  by rewrite IH.
Qed.

Lemma average_completion_time_on_board_witness :
  let df := sample_frame in
  let hits := filter (λ r, in_range (wall (naive (jan 1))) (wall (naive (jan 10)))
                             (completed_date r) = true)
                (rows df) in
  get_average_completion_time df (naive (jan 1)) (naive (jan 10)) =
    Ok (match hits with
        | [] => Fin 0
        | _ :: _ =>
            match omap completion_time_days hits with
            | [] => NaN
            | vs => Fin (Qsum vs / inject_Z (Z.of_nat (length vs)))
            end
        end).
Proof.
  apply (average_completion_time_on_board sample_now sample_data
           (naive (jan 1)) (naive (jan 10))).
  vm_compute. discriminate.
Defined.

(** ** The configuration read from the environment *)

Lemma getenv_empty (environ : gmap string string) key default_value :
  default_value ≠ ""%string →
  getenv environ key default_value = ""%string ↔
  environ !! key = Some ""%string.
Proof.
  intros Hd. unfold getenv. destruct (environ !! key) as [v|].
  - change (default default_value (Some v)) with v.
    split; [by intros ->|by intros [= ->]].
  - change (default default_value None) with default_value.
    split; [done|discriminate].
Qed.

(** X18.  With the non-empty literals of the source as defaults, the
    configuration read from the environment is incomplete exactly when one
    of the three variables is set to the empty string: a variable that is
    not set never makes it incomplete. *)
Theorem configuration_incomplete_iff_empty_variable defaults
    (environ : gmap string string) :
  is_configured defaults = true →
  (is_configured (load_config defaults environ) = false ↔
   environ !! "TRELLO_API_KEY"%string = Some ""%string ∨
   environ !! "TRELLO_TOKEN"%string = Some ""%string ∨
   environ !! "TRELLO_BOARD_ID"%string = Some ""%string).
Proof.
  intros (Hk & Ht & Hb)%is_configured_true.
  rewrite <- not_true_iff_false, is_configured_true.
  rewrite <- (getenv_empty environ "TRELLO_API_KEY" _ Hk).
  rewrite <- (getenv_empty environ "TRELLO_TOKEN" _ Ht).
  rewrite <- (getenv_empty environ "TRELLO_BOARD_ID" _ Hb).
  unfold load_config. cbn [TRELLO_API_KEY TRELLO_TOKEN TRELLO_BOARD_ID].
  generalize (getenv environ "TRELLO_API_KEY" (TRELLO_API_KEY defaults)),
    (getenv environ "TRELLO_TOKEN" (TRELLO_TOKEN defaults)),
    (getenv environ "TRELLO_BOARD_ID" (TRELLO_BOARD_ID defaults)).
  intros x y z.
  destruct (decide (x = ""%string)), (decide (y = ""%string)),
    (decide (z = ""%string)); tauto.
Qed.

Lemma configuration_incomplete_iff_empty_variable_witness :
  is_configured (load_config sample_cfg {["TRELLO_TOKEN"%string := ""%string]}) = false ↔
   ({["TRELLO_TOKEN"%string := ""%string]} : gmap string string)
     !! "TRELLO_API_KEY"%string = Some ""%string ∨
   ({["TRELLO_TOKEN"%string := ""%string]} : gmap string string)
     !! "TRELLO_TOKEN"%string = Some ""%string ∨
   ({["TRELLO_TOKEN"%string := ""%string]} : gmap string string)
     !! "TRELLO_BOARD_ID"%string = Some ""%string.
Proof.
  apply (configuration_incomplete_iff_empty_variable sample_cfg
           {["TRELLO_TOKEN"%string := ""%string]}).
  vm_compute. reflexivity.
Defined.

(** ** An environment that sets no variable *)


(** ** The exponent of a float64 *)

Lemma Qscale_pred q e : (Qscale q (e - 1) == 2 * Qscale q e)%Q.
Proof.
  unfold Qscale.
  destruct (Z.leb_spec (e - 1) 0) as [H1|H1], (Z.leb_spec e 0) as [H0|H0];
    try lia.
  - replace (- (e - 1)) with (Z.succ (- e)) by lia.
    rewrite Z.pow_succ_r by lia. rewrite inject_Z_mult.
    change (inject_Z 2) with 2%Q. ring.
  - assert (e = 1) as -> by lia.
    change (inject_Z (2 ^ (- (1 - 1)))) with 1%Q.
    change (inject_Z (2 ^ 1)) with 2%Q. field.
  - replace e with (Z.succ (e - 1)) at 2 by lia.
    rewrite Z.pow_succ_r by lia. rewrite inject_Z_mult.
    change (inject_Z 2) with 2%Q.
    assert (¬ inject_Z (2 ^ (e - 1)) == 0)%Q.
    { intros H. pose proof (inject_Z_pow2_pos (e - 1) ltac:(lia)) as Hp.
      rewrite H in Hp. by apply Qlt_irrefl in Hp. }
    field. done.
Qed.

(** The first guess of the exponent is right or one too high. *)
Lemma ulp_exponent_guess n d :
  0 < n →
  let e := Z.log2 n - Z.log2 (Z.pos d) - 52 in
  (inject_Z (2 ^ 51) <= Qscale (n # d) e)%Q ∧
  (Qscale (n # d) e < inject_Z (2 ^ 53))%Q.
Proof.
  intros Hn. cbn zeta.
  destruct (Z.log2_spec n Hn) as [Hn1 Hn2].
  destruct (Z.log2_spec (Z.pos d) ltac:(lia)) as [Hd1 Hd2].
  pose proof (Z.log2_nonneg n) as Hln.
  pose proof (Z.log2_nonneg (Z.pos d)) as Hld.
  set (ln := Z.log2 n) in *. set (ld := Z.log2 (Z.pos d)) in *.
  rewrite Z.pow_succ_r in Hn2, Hd2 by done.
  unfold Qscale. destruct (Z.leb_spec (ln - ld - 52) 0) as [He|He].
  - set (k := - (ln - ld - 52)).
    assert (2 ^ ln * 2 ^ k = 2 ^ 52 * 2 ^ ld) as Hpow.
    { rewrite <- !Z.pow_add_r by lia. f_equal. lia. }
    assert (0 < 2 ^ k) as Hk by (apply Z.pow_pos_nonneg; lia).
    assert (0 < 2 ^ ld) as Hpd by (apply Z.pow_pos_nonneg; lia).
    unfold Qle, Qlt. cbn [Qnum Qden Qmult inject_Z].
    rewrite !Z.mul_1_r, !Pos.mul_1_r. split; nia.
  - set (k := ln - ld - 52) in *.
    assert (2 ^ ln = 2 ^ 52 * 2 ^ ld * 2 ^ k) as Hpow.
    { rewrite <- !Z.pow_add_r by lia. f_equal. lia. }
    assert (0 < 2 ^ k) as Hk by (apply Z.pow_pos_nonneg; lia).
    assert (0 < 2 ^ ld) as Hpd by (apply Z.pow_pos_nonneg; lia).
    pose proof (inject_Z_pow2_pos k ltac:(lia)) as HP.
    split.
    + apply Qle_shift_div_l; [done|]. rewrite <- inject_Z_mult.
      unfold Qle. cbn [Qnum Qden inject_Z]. rewrite !Z.mul_1_r. nia.
    + apply Qlt_shift_div_r; [done|]. rewrite <- inject_Z_mult.
      unfold Qlt. cbn [Qnum Qden inject_Z]. rewrite !Z.mul_1_r. nia.
Qed.

(** [ulp_exponent] is the exponent of the float64 format: it scales a
    positive rational to a significand of 53 bits. *)
Lemma ulp_exponent_spec n d :
  0 < n →
  (inject_Z (2 ^ 52) <= Qscale (n # d) (ulp_exponent n d))%Q ∧
  (Qscale (n # d) (ulp_exponent n d) < inject_Z (2 ^ 53))%Q.
Proof.
  intros Hn. destruct (ulp_exponent_guess n d Hn) as [Hlo Hhi].
  unfold ulp_exponent.
  destruct (Qle_bool _ _) eqn:E.
  - apply Qle_bool_iff in E. done.
  - assert (Qscale (n # d) (Z.log2 n - Z.log2 (Z.pos d) - 52) < inject_Z (2 ^ 52))%Q
      as Hlt.
    { apply Qnot_le_lt. intros H%Qle_bool_iff. congruence. }
    rewrite Qscale_pred. split.
    + change (inject_Z (2 ^ 52)) with (2 * inject_Z (2 ^ 51))%Q.
      apply Qmult_le_l; done.
    + change (inject_Z (2 ^ 53)) with (2 * inject_Z (2 ^ 52))%Q.
      apply Qmult_lt_l; done.
Qed.
